(** * Conversation manager (build/server.js): state store, phase machine,
      tool handlers and resource reader.

    The development follows build/server.js.  JavaScript strings are
    modelled by [string]; a character of the model stands for one UTF-16
    code unit, which is what [length], [substring], [+] and [===] of the
    source operate on.  The conversation objects live in a heap of
    references, so that the aliasing between the [Map] entry and the local
    [state] variable of a handler is explicit. *)

From Stdlib Require Import Ascii String.
From stdpp Require Import gmap strings list fin_maps.

Local Open Scope stdpp_scope.

(** ** Strings of the source *)

Definition dquote : string := String "034"%char EmptyString.
Definition newline : string := String "010"%char EmptyString.

(** [s.substring(0, n)]: the first [n] code units, or all of [s] when it is
    shorter. *)
Definition js_substring0 (n : nat) (s : string) : string := String.substring 0 n s.

(** [xs.join(sep)] *)
Definition join (sep : string) (xs : list string) : string := String.concat sep xs.

(** [t.includes(s)] on strings, used to state "the text contains ...". *)
Fixpoint contains (s t : string) : bool :=
  String.prefix s t ||
  match t with
  | EmptyString => false
  | String _ t' => contains s t'
  end.

(** ** Data model *)

(** A [Map] key as the source produces it: a string, or [undefined]
    (modelled by [None]). *)
Abbreviation key := (option string).

Record ConversationState := {
  id : key;
  goal : option string;        (* null | string *)
  summary : option string;     (* null | string *)
  keyPoints : list string;
  phase : string;
}.

#[global] Instance ConversationState_eq_dec : EqDecision ConversationState.
Proof. solve_decision. Defined.

Definition set_goal (g : string) (c : ConversationState) : ConversationState :=
  {| id := id c; goal := Some g; summary := summary c;
     keyPoints := keyPoints c; phase := phase c |}.
Definition set_summary (t : string) (c : ConversationState) : ConversationState :=
  {| id := id c; goal := goal c; summary := Some t;
     keyPoints := keyPoints c; phase := phase c |}.
Definition set_phase (p : string) (c : ConversationState) : ConversationState :=
  {| id := id c; goal := goal c; summary := summary c;
     keyPoints := keyPoints c; phase := p |}.
Definition push_keyPoint (p : string) (c : ConversationState) : ConversationState :=
  {| id := id c; goal := goal c; summary := summary c;
     keyPoints := keyPoints c ++ [p]; phase := phase c |}.

(** The object literal of [getConversationState]. *)
Definition initial_state (conversationId : key) : ConversationState :=
  {| id := conversationId; goal := None; summary := None;
     keyPoints := []; phase := "idle" |}.

(** The process state: the objects allocated so far (a reference is an index
    into [heap]) and the module-level [Map] from keys to references. *)
Record Store := {
  heap : list ConversationState;
  conversationStates : gmap key nat;
}.

Definition empty_store : Store := {| heap := []; conversationStates := ∅ |}.

(** ** Errors and the handler monad *)

Inductive ErrorCode := InvalidParams.

Record McpError := { code : ErrorCode; message : string }.

(** How a handler ends: it returns, it throws, or the model followed a
    reference that was never allocated (shown below never to happen). *)
Inductive Completion (A : Type) :=
  | Normal (a : A)
  | Throw (e : McpError)
  | Dangling.
Arguments Normal {A} a.
Arguments Throw {A} e.
Arguments Dangling {A}.

(** A handler transforms the store and completes; the store it leaves behind
    is kept also when it throws. *)
Definition Js (A : Type) : Type := Store → Completion A * Store.

Definition ret {A} (a : A) : Js A := λ s, (Normal a, s).
Definition throw {A} (e : McpError) : Js A := λ s, (Throw e, s).
Definition bind {A B} (m : Js A) (k : A → Js B) : Js B :=
  λ s, match m s with
       | (Normal a, s') => k a s'
       | (Throw e, s') => (Throw e, s')
       | (Dangling, s') => (Dangling, s')
       end.

Notation "'let*' x ':=' m 'in' k" := (bind m (λ x, k))
  (at level 10, x name, m at level 100, k at level 200).

(** Reading the object behind a reference, and updating it in place. *)
Definition deref (l : nat) : Js ConversationState :=
  λ s, match heap s !! l with
       | Some c => (Normal c, s)
       | None => (Dangling, s)
       end.

Definition assign (l : nat) (f : ConversationState → ConversationState) : Js unit :=
  λ s, match heap s !! l with
       | Some c => (Normal tt, {| heap := <[l := f c]> (heap s);
                                  conversationStates := conversationStates s |})
       | None => (Dangling, s)
       end.

(** ** Conversation store: [getConversationState] *)

Definition getConversationState (conversationId : key) : Js nat :=
  λ s, match conversationStates s !! conversationId with
       | Some l => (Normal l, s)
       | None =>
           let l := length (heap s) in
           (Normal l,
            {| heap := heap s ++ [initial_state conversationId];
               conversationStates := <[conversationId := l]> (conversationStates s) |})
       end.

(** The state of conversation [k] as an observer sees it. *)
Definition entry (s : Store) (k : key) : option ConversationState :=
  match conversationStates s !! k with
  | Some l => heap s !! l
  | None => None
  end.

(** ** Identity resolution *)

(** A URI template variable as the read callback may receive it in
    [params.conversationId]: a string, an array of strings, or nothing. *)
Inductive UriVariable :=
  | VUndefined
  | VString (s : string)
  | VArray (xs : list string).

(** The [if / else if] chain at the head of the read callback. *)
Definition determinedConversationId
    (params_conversationId : UriVariable) (sessionId : option string) : key :=
  match params_conversationId with
  | VString s => Some s                       (* typeof ... === 'string' *)
  | VArray xs => head xs                      (* params.conversationId[0] *)
  | VUndefined =>
      match sessionId with
      | Some sid => Some sid                  (* typeof extra.sessionId === 'string' *)
      | None => Some "default"
      end
  end.

(** The first line of each tool handler:
    [(inputConvId != null) ? inputConvId : ((extra.sessionId != null) ? extra.sessionId : 'default')]. *)
Definition conversationId (inputConvId sessionId : option string) : string :=
  match inputConvId with
  | Some c => c
  | None => match sessionId with
            | Some sid => sid
            | None => "default"
            end
  end.

(** ** Resource reader *)

Module Resource.
Record Contents := { uri : string; text : string; mimeType : string }.
Record Result := { contents : list Contents }.
End Resource.

Definition unknown_aspect (aspect : string) : McpError :=
  {| code := InvalidParams;
     message := "Unknown conversation aspect requested: " +:+ aspect |}.

Definition conversationAspect (href : string) (params_conversationId : UriVariable)
    (aspect : string) (sessionId : option string) : Js Resource.Result :=
  let determined := determinedConversationId params_conversationId sessionId in
  let* state := getConversationState determined in
  let* textContent :=
    if String.eqb aspect "goal" then
      let* st := deref state in
      ret (match goal st with
           | Some g => g
           | None => "No conversation goal has been set yet."
           end)
    else if String.eqb aspect "summary" then
      let* st := deref state in
      ret (match summary st with
           | Some t => t
           | None => "No summary is currently available for this conversation."
           end)
    else if String.eqb aspect "state" then
      let* st := deref state in
      ret ("The conversation is currently in the '" +:+ phase st +:+ "' phase.")
    else if String.eqb aspect "keyPoints" then
      let* st := deref state in
      ret (if 0 <? length (keyPoints st)
           then join newline (map (λ p, "- " +:+ p) (keyPoints st))
           else "No key points have been recorded yet.")
    else throw (unknown_aspect aspect)
  in
  ret {| Resource.contents :=
           [ {| Resource.uri := href; Resource.text := textContent;
                Resource.mimeType := "text/plain" |} ] |}.

(** ** Tools *)

Module Tool.
Record Content := { type : string; text : string }.
Record Result := { content : list Content }.
End Tool.

Definition text_result (t : string) : Tool.Result :=
  {| Tool.content := [ {| Tool.type := "text"; Tool.text := t |} ] |}.

(** The text of a tool result. *)
Definition reply (r : Tool.Result) : string :=
  join EmptyString (map Tool.text (Tool.content r)).

(** [z.string().min(n)] of the tool schemas. *)
Definition z_string_min (n : nat) (s : string) : bool := n <=? String.length s.

Definition set_conversation_goal (goalDescription : string)
    (inputConvId sessionId : option string) : Js Tool.Result :=
  let conversationId := conversationId inputConvId sessionId in
  let* state := getConversationState (Some conversationId) in
  let* _ := assign state (set_goal goalDescription) in
  let* _ := assign state (set_phase "exploring") in
  ret (text_result
         ("Conversation goal has been set to: " +:+ dquote +:+ goalDescription +:+ dquote)).

Definition summary_label : string := "Summary based on text provided: ".

Definition mockSummary (textToSummarize : string) : string :=
  summary_label +:+ js_substring0 150 textToSummarize
    +:+ (if 150 <? String.length textToSummarize then "..." else EmptyString).

Definition summarize_conversation (textToSummarize : string)
    (inputConvId sessionId : option string) : Js Tool.Result :=
  let conversationId := conversationId inputConvId sessionId in
  let* state := getConversationState (Some conversationId) in
  let mockSummary := mockSummary textToSummarize in
  let* _ := assign state (set_summary mockSummary) in
  let* _ := assign state (set_phase "summarizing") in
  ret (text_result "OK, I've updated the conversation summary.").

(** [!state.goal]: true for [null] and for the empty string. *)
Definition not_goal (g : option string) : bool :=
  match g with
  | None => true
  | Some EmptyString => true
  | Some (String _ _) => false
  end.

(** [${state.goal}] inside a template literal. *)
Definition interpolate (g : option string) : string :=
  match g with
  | Some t => t
  | None => "null"
  end.

Definition suggest_next_step (inputConvId sessionId : option string) : Js Tool.Result :=
  let conversationId := conversationId inputConvId sessionId in
  let* state := getConversationState (Some conversationId) in
  let* st := deref state in
  let* suggestion :=
    if not_goal (goal st) then
      let* _ := assign state (set_phase "defining_goal") in
      ret "We haven't set a goal yet. Let's define the main objective using the 'set_conversation_goal' tool."
    else if String.eqb (phase st) "defining_goal" then
      ret ("Now that the goal is set to " +:+ dquote +:+ interpolate (goal st) +:+ dquote
           +:+ ", maybe we can start exploring options or gathering information related to it?")
    else if String.eqb (phase st) "exploring" then
      ret ("Continuing towards the goal " +:+ dquote +:+ interpolate (goal st) +:+ dquote
           +:+ ", what specific aspect should we focus on next? Or perhaps we should record some key points?")
    else if String.eqb (phase st) "summarizing" then
      ret ("I've just updated the summary. Based on that and our goal " +:+ dquote
           +:+ interpolate (goal st) +:+ dquote +:+ ", what's the next priority?")
    else
      let* _ := assign state (set_phase "defining_goal") in
      ret "Let's get started. We should probably define a goal for this conversation first using 'set_conversation_goal'."
  in
  ret (text_result suggestion).

(** [xs.includes(x)] on an array of strings. *)
Definition includes (xs : list string) (x : string) : bool := existsb (String.eqb x) xs.

Definition record_key_point (keyPoint : string)
    (inputConvId sessionId : option string) : Js Tool.Result :=
  let conversationId := conversationId inputConvId sessionId in
  let* state := getConversationState (Some conversationId) in
  let* st := deref state in
  if negb (includes (keyPoints st) keyPoint) then
    let* _ := assign state (push_keyPoint keyPoint) in
    ret (text_result ("Noted. Key point recorded: " +:+ dquote +:+ keyPoint +:+ dquote))
  else
    ret (text_result "That point seems to be already recorded.").

(** ** Requests and reachable stores *)

Inductive Request :=
  | ReadResource (href : string) (params_conversationId : UriVariable)
      (aspect : string) (sessionId : option string)
  | SetConversationGoal (goalDescription : string) (inputConvId sessionId : option string)
  | SummarizeConversation (textToSummarize : string) (inputConvId sessionId : option string)
  | SuggestNextStep (inputConvId sessionId : option string)
  | RecordKeyPoint (keyPoint : string) (inputConvId sessionId : option string).

(** The input schemas declared with the tools; a handler runs only on a
    payload that passes them. *)
Definition schema_ok (r : Request) : bool :=
  match r with
  | ReadResource _ _ _ _ => true
  | SetConversationGoal g _ _ => z_string_min 5 g
  | SummarizeConversation t _ _ => z_string_min 10 t
  | SuggestNextStep _ _ => true
  | RecordKeyPoint p _ _ => z_string_min 5 p
  end.

(** The store a request leaves behind, whether its handler returns or throws. *)
Definition handle (r : Request) (s : Store) : Store :=
  match r with
  | ReadResource h p a sid => snd (conversationAspect h p a sid s)
  | SetConversationGoal g c sid => snd (set_conversation_goal g c sid s)
  | SummarizeConversation t c sid => snd (summarize_conversation t c sid s)
  | SuggestNextStep c sid => snd (suggest_next_step c sid s)
  | RecordKeyPoint p c sid => snd (record_key_point p c sid s)
  end.

Inductive reachable : Store → Prop :=
  | reachable_start : reachable empty_store
  | reachable_step s r :
      reachable s → schema_ok r = true → reachable (handle r s).

(** The store after a list of requests, oldest first. *)
Definition run (rs : list Request) (s : Store) : Store :=
  foldl (λ acc r, handle r acc) s rs.

(** ** Well-formed stores *)

(** Every key of the [Map] refers to an allocated object, and that object
    carries the key in its [id] field.  Two keys therefore never share an
    object. *)
Definition store_wf (s : Store) : Prop :=
  ∀ k l, conversationStates s !! k = Some l →
         ∃ c, heap s !! l = Some c ∧ id c = k.

(** The store after [getConversationState k], i.e. after lazy creation. *)
Definition touch (k : key) (s : Store) : Store := snd (getConversationState k s).

(** The state a handler works on: the one [getConversationState] hands out. *)
Definition current (s : Store) (k : key) : option ConversationState :=
  entry (touch k s) k.

(** The store after an in-place update of the object of conversation [k]. *)
Definition modify (k : key) (f : ConversationState → ConversationState)
    (s : Store) : Store :=
  match conversationStates s !! k with
  | Some l => snd (assign l f s)
  | None => s
  end.

(** ** Invariants of the conversation objects *)

Definition phases : list string := ["idle"; "defining_goal"; "exploring"; "summarizing"].

(** What every object of a reachable store satisfies: distinct key points, an
    enumerated phase, and a stored goal that passed the schema and has moved
    the phase past [idle] and [defining_goal]. *)
Definition state_inv (c : ConversationState) : Prop :=
  NoDup (keyPoints c)
  ∧ phase c ∈ phases
  ∧ ∀ g, goal c = Some g →
         5 ≤ String.length g ∧ phase c ∈ ["exploring"; "summarizing"].

Definition store_inv (s : Store) : Prop :=
  store_wf s ∧ Forall state_inv (heap s).

(** An identity that is a string with at least one character. *)
Definition nonempty_identity (k : key) : Prop :=
  ∃ x, k = Some x ∧ x ≠ EmptyString.

(** A store in which a goal is set while the phase is back at [idle]
    (the row "goal set but phase reverted" of the transition table). *)
Definition reverted_store : Store :=
  {| heap := [ {| id := Some "conv1"; goal := Some "Plan a trip"; summary := None;
                  keyPoints := []; phase := "idle" |} ];
     conversationStates := {[ Some "conv1" := 0 ]} |}.

(** ** Notions for the properties of the whole server *)

(** The completion callback of the resource template,
    [aspect: () => ['goal', 'summary', 'state', 'keyPoints']]. *)
Definition complete_aspect : list string := ["goal"; "summary"; "state"; "keyPoints"].

(** The [params.conversationId] of a read that names the conversation the way
    a tool call with [inputConvId] does: the same string, or nothing. *)
Definition explicit_variable (inputConvId : option string) : UriVariable :=
  match inputConvId with
  | Some x => VString x
  | None => VUndefined
  end.

(** The identity a request resolves to. *)
Definition target (r : Request) : key :=
  match r with
  | ReadResource _ p _ sid => determinedConversationId p sid
  | SetConversationGoal _ c sid => Some (conversationId c sid)
  | SummarizeConversation _ c sid => Some (conversationId c sid)
  | SuggestNextStep c sid => Some (conversationId c sid)
  | RecordKeyPoint _ c sid => Some (conversationId c sid)
  end.

(** What the schemas and the handlers together guarantee about the data of a
    conversation object. *)
Definition state_data_inv (c : ConversationState) : Prop :=
  (∀ g, goal c = Some g → 5 ≤ String.length g)
  ∧ (∀ t, summary c = Some t →
          String.prefix summary_label t = true ∧ 42 ≤ String.length t ≤ 185)
  ∧ Forall (λ p, 5 ≤ String.length p) (keyPoints c)
  ∧ (phase c = "exploring" → is_Some (goal c))
  ∧ (phase c = "defining_goal" → goal c = None)
  ∧ (phase c = "idle" → goal c = None ∧ summary c = None).

(** Every allocated object is the one registered under its own [id]. *)
Definition heap_registered (s : Store) : Prop :=
  ∀ l c, heap s !! l = Some c → conversationStates s !! id c = Some l.

(** * Properties *)

(** ** Stores *)

Lemma store_wf_empty : store_wf empty_store.
Proof. intros k l H. simpl in H. by rewrite lookup_empty in H. Qed.

Lemma touch_known s k l : conversationStates s !! k = Some l → touch k s = s.
Proof. intros H. unfold touch, getConversationState. by rewrite H. Qed.

Lemma touch_fresh s k :
  conversationStates s !! k = None →
  touch k s = {| heap := heap s ++ [initial_state k];
                 conversationStates := <[k := length (heap s)]> (conversationStates s) |}.
Proof. intros H. unfold touch, getConversationState. by rewrite H. Qed.

Lemma store_wf_touch s k : store_wf s → store_wf (touch k s).
Proof.
  intros Hwf. destruct (conversationStates s !! k) as [l|] eqn:Hk.
  - by rewrite (touch_known _ _ _ Hk).
  - rewrite (touch_fresh _ _ Hk). intros k' l'. simpl.
    rewrite lookup_insert. case_decide as Hkk.
    + intros [= <-]. subst k'. exists (initial_state k). split; [|done].
      by apply list_lookup_middle.
    + intros Hl'. destruct (Hwf _ _ Hl') as (c & Hc & Hid).
      exists c. split; [|done]. by apply lookup_app_l_Some.
Qed.

Lemma getConversationState_run s k :
  store_wf s →
  ∃ l c, getConversationState k s = (Normal l, touch k s)
         ∧ conversationStates (touch k s) !! k = Some l
         ∧ heap (touch k s) !! l = Some c.
Proof.
  intros Hwf. pose proof (store_wf_touch s k Hwf) as Hwf'.
  assert (∃ l, getConversationState k s = (Normal l, touch k s)
               ∧ conversationStates (touch k s) !! k = Some l) as (l & Hrun & Hl).
  { unfold touch, getConversationState.
    destruct (conversationStates s !! k) as [l|] eqn:Hk; simpl.
    - by exists l.
    - exists (length (heap s)). split; [done|]. by rewrite lookup_insert_eq. }
  destruct (Hwf' _ _ Hl) as (c & Hc & _). by exists l, c.
Qed.

Lemma entry_points s k l c :
  conversationStates s !! k = Some l → heap s !! l = Some c → entry s k = Some c.
Proof. intros Hl Hc. unfold entry. by rewrite Hl. Qed.

Lemma entry_touch_ne s k k' : store_wf s → k' ≠ k → entry (touch k s) k' = entry s k'.
Proof.
  intros Hwf Hne. destruct (conversationStates s !! k) as [l|] eqn:Hk.
  - by rewrite (touch_known _ _ _ Hk).
  - rewrite (touch_fresh _ _ Hk). unfold entry. simpl.
    rewrite lookup_insert_ne by done.
    destruct (conversationStates s !! k') as [l'|] eqn:Hk'; [|done].
    destruct (Hwf _ _ Hk') as (c & Hc & _).
    rewrite Hc. by apply lookup_app_l_Some.
Qed.

Lemma current_known s k l : conversationStates s !! k = Some l → current s k = entry s k.
Proof. intros H. unfold current. by rewrite (touch_known _ _ _ H). Qed.

Lemma current_fresh s k :
  conversationStates s !! k = None → current s k = Some (initial_state k).
Proof.
  intros H. unfold current. rewrite (touch_fresh _ _ H). unfold entry. simpl.
  rewrite lookup_insert_eq. by apply list_lookup_middle.
Qed.

Lemma current_is_Some s k : store_wf s → is_Some (current s k).
Proof.
  intros Hwf. destruct (getConversationState_run s k Hwf) as (l & c & _ & Hl & Hc).
  exists c. by apply (entry_points _ _ l).
Qed.

Lemma deref_run s l c : heap s !! l = Some c → deref l s = (Normal c, s).
Proof. intros H. unfold deref. by rewrite H. Qed.

Lemma assign_run s k l c f :
  conversationStates s !! k = Some l → heap s !! l = Some c →
  assign l f s = (Normal tt, modify k f s)
  ∧ conversationStates (modify k f s) !! k = Some l
  ∧ heap (modify k f s) !! l = Some (f c).
Proof.
  intros Hl Hc. unfold modify, assign. rewrite Hl, Hc. simpl.
  split; [done|]. split; [done|].
  apply list_lookup_insert_eq. by eapply lookup_lt_Some.
Qed.

Lemma modify_map s k f : conversationStates (modify k f s) = conversationStates s.
Proof.
  unfold modify, assign. destruct (conversationStates s !! k); [|done].
  by destruct (heap s !! n).
Qed.

Lemma entry_modify_eq s k f : store_wf s → entry (modify k f s) k = f <$> entry s k.
Proof.
  intros Hwf. unfold entry. rewrite modify_map.
  destruct (conversationStates s !! k) as [l|] eqn:Hk; [|done].
  destruct (Hwf _ _ Hk) as (c & Hc & _).
  destruct (assign_run s k l c f Hk Hc) as (_ & _ & ->). by rewrite Hc.
Qed.

Lemma entry_modify_ne s k k' f :
  store_wf s → k' ≠ k → entry (modify k f s) k' = entry s k'.
Proof.
  intros Hwf Hne. unfold entry. rewrite modify_map.
  destruct (conversationStates s !! k') as [l'|] eqn:Hk'; [|done].
  unfold modify, assign.
  destruct (conversationStates s !! k) as [l|] eqn:Hk; [|done].
  destruct (Hwf _ _ Hk) as (c & Hc & Hid).
  destruct (Hwf _ _ Hk') as (c' & Hc' & Hid').
  rewrite Hc. simpl. apply list_lookup_insert_ne.
  intros ->. congruence.
Qed.

Lemma store_wf_modify s k f :
  store_wf s → (∀ c, id (f c) = id c) → store_wf (modify k f s).
Proof.
  intros Hwf Hf k' l' Hl'. rewrite modify_map in Hl'.
  destruct (decide (k' = k)) as [->|Hne].
  - pose proof (entry_modify_eq s k f Hwf) as He. unfold entry in He.
    rewrite modify_map, Hl' in He. destruct (Hwf _ _ Hl') as (c & Hc & Hid).
    rewrite Hc in He. simpl in He. exists (f c). split; [done|]. by rewrite Hf.
  - pose proof (entry_modify_ne s k k' f Hwf Hne) as He. unfold entry in He.
    rewrite modify_map, Hl' in He. destruct (Hwf _ _ Hl') as (c & Hc & Hid).
    exists c. split; [|done]. by rewrite He.
Qed.

Lemma bind_Normal {A B} (m : Js A) (k : A → Js B) s a s' :
  m s = (Normal a, s') → bind m k s = k a s'.
Proof. intros H. unfold bind. by rewrite H. Qed.

(** ** Strings *)

Lemma append_nil (b : string) : EmptyString +:+ b = b.
Proof. reflexivity. Qed.

Lemma append_cons (x : ascii) (a b : string) : String x a +:+ b = String x (a +:+ b).
Proof. reflexivity. Qed.

Lemma length_append (a b : string) :
  String.length (a +:+ b) = String.length a + String.length b.
Proof.
  induction a as [|x a IH]; [done|].
  rewrite append_cons. cbn. by rewrite IH.
Qed.

Lemma append_assoc (a b c : string) : (a +:+ b) +:+ c = a +:+ (b +:+ c).
Proof.
  induction a as [|x a IH]; [done|].
  rewrite !append_cons. by rewrite IH.
Qed.

Lemma prefix_append (s b : string) : String.prefix s (s +:+ b) = true.
Proof.
  induction s as [|x s IH]; [by destruct b|].
  rewrite append_cons. cbn. destruct (ascii_dec x x); [done|congruence].
Qed.

Lemma prefix_split (s t : string) :
  String.prefix s t = true → ∃ b, t = s +:+ b.
Proof.
  revert t. induction s as [|x s IH]; intros t H.
  - by exists t.
  - destruct t as [|y t]; cbn in H; [done|].
    destruct (ascii_dec x y) as [->|]; [|done].
    destruct (IH _ H) as [b ->]. by exists b.
Qed.

Lemma contains_unfold (s t : string) :
  contains s t =
    String.prefix s t || match t with
                         | EmptyString => false
                         | String _ t' => contains s t'
                         end.
Proof. by destruct t. Qed.

Lemma contains_prefix (s t : string) : String.prefix s t = true → contains s t = true.
Proof. intros H. rewrite contains_unfold. by rewrite H. Qed.

Lemma contains_append_r (s a t : string) :
  contains s t = true → contains s (a +:+ t) = true.
Proof.
  intros H. induction a as [|x a IH]; [done|].
  rewrite append_cons, contains_unfold, IH. apply orb_true_r.
Qed.

(** [contains] is the substring relation. *)
Lemma contains_spec (s t : string) :
  contains s t = true ↔ ∃ a b, t = a +:+ s +:+ b.
Proof.
  split.
  - induction t as [|y t IH]; rewrite contains_unfold; intros H.
    + rewrite orb_false_r in H. destruct (prefix_split _ _ H) as [b Hb].
      by exists EmptyString, b.
    + apply orb_true_iff in H as [H|H].
      * destruct (prefix_split _ _ H) as [b Hb]. by exists EmptyString, b.
      * destruct (IH H) as (a & b & ->). by exists (String y a), b.
  - intros (a & b & ->). apply contains_append_r, contains_prefix, prefix_append.
Qed.

Lemma contains_label (a b t : string) :
  contains (a +:+ b) t = true → contains a t = true.
Proof.
  rewrite !contains_spec. intros (x & y & ->). exists x, (b +:+ y).
  by rewrite append_assoc.
Qed.

(** [s.substring(0, n)] is the prefix of [s] of length [min n s.length]. *)
Lemma js_substring0_prefix (n : nat) (s : string) :
  ∃ rest, s = js_substring0 n s +:+ rest
          ∧ String.length (js_substring0 n s) = n `min` String.length s.
Proof.
  unfold js_substring0. revert s. induction n as [|n IH]; intros s.
  - exists s. by destruct s.
  - destruct s as [|x s]; cbn.
    + by exists EmptyString.
    + destruct (IH s) as (rest & Hs & Hlen). exists rest.
      rewrite append_cons. split; [by rewrite <- Hs|]. by rewrite Hlen.
Qed.

Lemma js_substring0_all (n : nat) (s : string) :
  String.length s ≤ n → js_substring0 n s = s.
Proof.
  unfold js_substring0. revert s. induction n as [|n IH]; intros s H.
  - destruct s; cbn in *; [done|lia].
  - destruct s as [|x s]; cbn in *; [done|]. rewrite IH; [done|lia].
Qed.

Lemma includes_spec (xs : list string) (x : string) :
  includes xs x = true ↔ x ∈ xs.
Proof.
  unfold includes. rewrite existsb_exists, list_elem_of_In. split.
  - intros (y & Hy & Heq). apply String.eqb_eq in Heq. by subst.
  - intros H. exists x. split; [done|]. apply String.eqb_refl.
Qed.

(** ** Running the handlers on a well-formed store *)

Ltac enter_handler Hwf k l c Hl Hc :=
  let Hget := fresh "Hget" in
  destruct (getConversationState_run _ k Hwf) as (l & c & Hget & Hl & Hc);
  rewrite (bind_Normal _ _ _ _ _ Hget); cbv beta; clear Hget.

Ltac run_deref :=
  match goal with
  | Hc : heap ?s !! ?l = Some ?c |- context [bind (deref ?l) _ ?s] =>
      rewrite (bind_Normal _ _ _ _ _ (deref_run s l c Hc)); cbv beta
  end.

Ltac run_assign :=
  match goal with
  | Hl : conversationStates ?s !! ?k = Some ?l, Hc : heap ?s !! ?l = Some ?c
    |- context [bind (assign ?l ?f) _ ?s] =>
      let Ha := fresh "Ha" in
      let Hl' := fresh "Hl" in
      let Hc' := fresh "Hc" in
      destruct (assign_run s k l c f Hl Hc) as (Ha & Hl' & Hc');
      rewrite (bind_Normal _ _ _ _ _ Ha); cbv beta; clear Ha
  end.

Lemma bind_bind {A B C} (m : Js A) (k1 : A → Js B) (k2 : B → Js C) s :
  bind (bind m k1) k2 s = bind m (λ a, bind (k1 a) k2) s.
Proof. unfold bind. by destruct (m s) as [[a| |] s']. Qed.

Lemma modify_modify s k f g :
  store_wf s → modify k g (modify k f s) = modify k (g ∘ f) s.
Proof.
  intros Hwf. unfold modify at 1. rewrite modify_map.
  unfold modify, assign.
  destruct (conversationStates s !! k) as [l|] eqn:Hk; [|done].
  destruct (Hwf _ _ Hk) as (c & Hc & _). rewrite Hc. simpl.
  rewrite list_lookup_insert_eq by (by eapply lookup_lt_Some). simpl.
  by rewrite list_insert_insert_eq.
Qed.

Lemma set_conversation_goal_run s g cid sid :
  store_wf s →
  let k := Some (conversationId cid sid) in
  set_conversation_goal g cid sid s =
    (Normal (text_result ("Conversation goal has been set to: " +:+ dquote +:+ g +:+ dquote)),
     modify k (set_phase "exploring" ∘ set_goal g) (touch k s)).
Proof.
  intros Hwf k. unfold set_conversation_goal.
  enter_handler Hwf k l c Hl Hc. run_assign. run_assign.
  by rewrite modify_modify by by apply store_wf_touch.
Qed.

Lemma summarize_conversation_run s t cid sid :
  store_wf s →
  let k := Some (conversationId cid sid) in
  summarize_conversation t cid sid s =
    (Normal (text_result "OK, I've updated the conversation summary."),
     modify k (set_phase "summarizing" ∘ set_summary (mockSummary t)) (touch k s)).
Proof.
  intros Hwf k. unfold summarize_conversation.
  enter_handler Hwf k l c Hl Hc. run_assign. run_assign.
  by rewrite modify_modify by by apply store_wf_touch.
Qed.

Lemma record_key_point_run s p cid sid :
  store_wf s →
  let k := Some (conversationId cid sid) in
  ∃ c, current s k = Some c ∧
       record_key_point p cid sid s =
         if includes (keyPoints c) p
         then (Normal (text_result "That point seems to be already recorded."), touch k s)
         else (Normal (text_result ("Noted. Key point recorded: " +:+ dquote +:+ p +:+ dquote)),
               modify k (push_keyPoint p) (touch k s)).
Proof.
  intros Hwf k. unfold record_key_point.
  enter_handler Hwf k l c Hl Hc. exists c.
  split; [by apply (entry_points _ _ l)|].
  run_deref. destruct (includes (keyPoints c) p); simpl; [done|].
  by run_assign.
Qed.

Lemma suggest_next_step_run s cid sid :
  store_wf s →
  let k := Some (conversationId cid sid) in
  ∃ c, current s k = Some c ∧
       suggest_next_step cid sid s =
         if not_goal (goal c) then
           (Normal (text_result "We haven't set a goal yet. Let's define the main objective using the 'set_conversation_goal' tool."),
            modify k (set_phase "defining_goal") (touch k s))
         else if String.eqb (phase c) "defining_goal" then
           (Normal (text_result ("Now that the goal is set to " +:+ dquote +:+ interpolate (goal c) +:+ dquote
              +:+ ", maybe we can start exploring options or gathering information related to it?")),
            touch k s)
         else if String.eqb (phase c) "exploring" then
           (Normal (text_result ("Continuing towards the goal " +:+ dquote +:+ interpolate (goal c) +:+ dquote
              +:+ ", what specific aspect should we focus on next? Or perhaps we should record some key points?")),
            touch k s)
         else if String.eqb (phase c) "summarizing" then
           (Normal (text_result ("I've just updated the summary. Based on that and our goal " +:+ dquote
              +:+ interpolate (goal c) +:+ dquote +:+ ", what's the next priority?")),
            touch k s)
         else
           (Normal (text_result "Let's get started. We should probably define a goal for this conversation first using 'set_conversation_goal'."),
            modify k (set_phase "defining_goal") (touch k s)).
Proof.
  intros Hwf k. unfold suggest_next_step.
  enter_handler Hwf k l c Hl Hc. exists c.
  split; [by apply (entry_points _ _ l)|].
  run_deref.
  destruct (not_goal (goal c)); [rewrite bind_bind; by run_assign|].
  destruct (String.eqb (phase c) "defining_goal"); [done|].
  destruct (String.eqb (phase c) "exploring"); [done|].
  destruct (String.eqb (phase c) "summarizing"); [done|].
  rewrite bind_bind. by run_assign.
Qed.

(** A read never changes the store beyond the lazy creation. *)
Lemma conversationAspect_store h p a sid s :
  snd (conversationAspect h p a sid s) = touch (determinedConversationId p sid) s.
Proof.
  unfold conversationAspect, touch, bind.
  destruct (getConversationState _ s) as [[l| |] s1] eqn:Hget; simpl; try done.
  repeat (match goal with |- context [if ?b then _ else _] => destruct b end);
    unfold deref, ret, throw; destruct (heap s1 !! l); done.
Qed.

Lemma conversationAspect_run h p a sid s :
  store_wf s →
  let k := determinedConversationId p sid in
  ∃ c, current s k = Some c ∧
       conversationAspect h p a sid s =
         (match
            (if String.eqb a "goal" then
               Some (match goal c with
                     | Some g => g
                     | None => "No conversation goal has been set yet."
                     end)
             else if String.eqb a "summary" then
               Some (match summary c with
                     | Some t => t
                     | None => "No summary is currently available for this conversation."
                     end)
             else if String.eqb a "state" then
               Some ("The conversation is currently in the '" +:+ phase c +:+ "' phase.")
             else if String.eqb a "keyPoints" then
               Some (if 0 <? length (keyPoints c)
                     then join newline (map (λ p, "- " +:+ p) (keyPoints c))
                     else "No key points have been recorded yet.")
             else None)
          with
          | Some t =>
              Normal {| Resource.contents :=
                          [ {| Resource.uri := h; Resource.text := t;
                               Resource.mimeType := "text/plain" |} ] |}
          | None => Throw (unknown_aspect a)
          end, touch k s).
Proof.
  intros Hwf k. unfold conversationAspect.
  enter_handler Hwf k l c Hl Hc. exists c.
  split; [by apply (entry_points _ _ l)|].
  destruct (String.eqb a "goal"); [rewrite bind_bind; by run_deref|].
  destruct (String.eqb a "summary"); [rewrite bind_bind; by run_deref|].
  destruct (String.eqb a "state"); [rewrite bind_bind; by run_deref|].
  destruct (String.eqb a "keyPoints"); [rewrite bind_bind; by run_deref|].
  done.
Qed.

(** ** Invariants of reachable stores *)

Ltac elem_of_literal := simpl; unfold phases; by repeat constructor.

Lemma state_inv_initial k : state_inv (initial_state k).
Proof. split; [apply NoDup_nil_2|]. split; [elem_of_literal|done]. Qed.

Lemma entry_heap s k c : entry s k = Some c → c ∈ heap s.
Proof.
  unfold entry. destruct (conversationStates s !! k); [|done].
  intros H. by eapply list_elem_of_lookup_2.
Qed.

Lemma store_inv_entry s k c : store_inv s → entry s k = Some c → state_inv c.
Proof.
  intros [_ Hall] He. rewrite Forall_forall in Hall.
  by eapply Hall, entry_heap.
Qed.

Lemma store_inv_current s k c : store_inv s → current s k = Some c → state_inv c.
Proof.
  intros Hinv Hc. destruct (conversationStates s !! k) as [l|] eqn:Hk.
  - rewrite (current_known _ _ _ Hk) in Hc. by eapply store_inv_entry.
  - rewrite (current_fresh _ _ Hk) in Hc. injection Hc as <-.
    apply state_inv_initial.
Qed.

Lemma store_inv_touch s k : store_inv s → store_inv (touch k s).
Proof.
  intros [Hwf Hall]. split; [by apply store_wf_touch|].
  destruct (conversationStates s !! k) as [l|] eqn:Hk.
  - by rewrite (touch_known _ _ _ Hk).
  - rewrite (touch_fresh _ _ Hk). simpl. apply Forall_app. split; [done|].
    apply Forall_singleton, state_inv_initial.
Qed.

Lemma store_inv_modify s k f :
  store_inv s →
  (∀ c, id (f c) = id c) →
  (∀ c, entry s k = Some c → state_inv c → state_inv (f c)) →
  store_inv (modify k f s).
Proof.
  intros [Hwf Hall] Hid Hf. split; [by apply store_wf_modify|].
  unfold modify, assign.
  destruct (conversationStates s !! k) as [l|] eqn:Hk; [|done].
  destruct (heap s !! l) as [c|] eqn:Hc; [|done]. simpl.
  apply Forall_insert; [done|].
  apply Hf; [by apply (entry_points _ _ l)|].
  rewrite Forall_forall in Hall. by eapply Hall, list_elem_of_lookup_2.
Qed.

Lemma z_string_min_le n t : z_string_min n t = true → n ≤ String.length t.
Proof. unfold z_string_min. apply Nat.leb_le. Qed.

Lemma not_goal_false g :
  not_goal g = false ↔ ∃ t, g = Some t ∧ t ≠ EmptyString.
Proof.
  split.
  - destruct g as [[|x t]|]; simpl; try done. intros _. by eexists.
  - intros (t & -> & Ht). by destruct t.
Qed.

Lemma handle_inv r s : store_inv s → schema_ok r = true → store_inv (handle r s).
Proof.
  intros Hinv Hok. pose proof Hinv as [Hwf _].
  destruct r as [h p a sid|g cid sid|t cid sid|cid sid|p cid sid]; simpl.
  - rewrite conversationAspect_store. by apply store_inv_touch.
  - rewrite set_conversation_goal_run by done. simpl.
    apply store_inv_modify; [by apply store_inv_touch|done|].
    intros c _ (Hnd & _ & _). split; [done|]. split.
    + elem_of_literal.
    + intros g' [= <-]. split; [by apply z_string_min_le|elem_of_literal].
  - rewrite summarize_conversation_run by done. simpl.
    apply store_inv_modify; [by apply store_inv_touch|done|].
    intros c _ (Hnd & _ & Hg). split; [done|]. split.
    + elem_of_literal.
    + intros g' Hg'. simpl in *. destruct (Hg _ Hg') as [Hlen _].
      split; [done|elem_of_literal].
  - destruct (suggest_next_step_run s cid sid Hwf) as (c & Hcur & ->).
    pose proof (store_inv_current _ _ _ Hinv Hcur) as (Hnd & Hph & Hg).
    destruct (not_goal (goal c)) eqn:Hng; simpl.
    + apply store_inv_modify; [by apply store_inv_touch|done|].
      intros c' Hc' _. unfold current in Hcur. rewrite Hcur in Hc'.
      injection Hc' as <-. split; [done|]. split.
      * elem_of_literal.
      * intros g' Hg'. simpl in Hg'. rewrite Hg' in Hng.
        destruct (Hg _ Hg') as [Hlen _]. destruct g'; simpl in *; [lia|done].
    + destruct (String.eqb (phase c) "defining_goal"); simpl;
        [by apply store_inv_touch|].
      destruct (String.eqb (phase c) "exploring") eqn:He; simpl;
        [by apply store_inv_touch|].
      destruct (String.eqb (phase c) "summarizing") eqn:Hs; simpl;
        [by apply store_inv_touch|].
      apply not_goal_false in Hng as (g' & Hg' & _).
      destruct (Hg _ Hg') as [_ Hin].
      apply String.eqb_neq in He, Hs.
      apply list_elem_of_In in Hin. simpl in Hin.
      destruct Hin as [?|[?|[]]]; congruence.
  - destruct (record_key_point_run s p cid sid Hwf) as (c & Hcur & ->).
    destruct (includes (keyPoints c) p) eqn:Hinc; simpl;
      [by apply store_inv_touch|].
    apply store_inv_modify; [by apply store_inv_touch|done|].
    intros c' Hc' (Hnd & Hph & Hg). unfold current in Hcur. rewrite Hcur in Hc'.
    injection Hc' as <-. split; [|done]. simpl.
    apply NoDup_app. split; [done|]. split; [|apply NoDup_singleton].
    intros x Hx Hxp. apply list_elem_of_singleton in Hxp as ->.
    apply includes_spec in Hx. congruence.
Qed.

Lemma store_inv_empty : store_inv empty_store.
Proof. split; [apply store_wf_empty|]. by apply Forall_nil. Qed.

Lemma reachable_inv s : reachable s → store_inv s.
Proof.
  induction 1 as [|s r _ IH Hok]; [apply store_inv_empty|by apply handle_inv].
Qed.

Lemma reachable_wf s : reachable s → store_wf s.
Proof. intros H. by destruct (reachable_inv s H). Qed.

(** ** The resolved conversation after a handler *)

Lemma entry_modify_current s k f c :
  store_wf s → current s k = Some c →
  entry (modify k f (touch k s)) k = Some (f c).
Proof.
  intros Hwf Hc. rewrite entry_modify_eq by by apply store_wf_touch.
  unfold current in Hc. by rewrite Hc.
Qed.

Lemma entry_modify_touch_ne s k k' f :
  store_wf s → k' ≠ k → entry (modify k f (touch k s)) k' = entry s k'.
Proof.
  intros Hwf Hne. rewrite entry_modify_ne by (done || by apply store_wf_touch).
  by apply entry_touch_ne.
Qed.

Lemma current_touch s k : current (touch k s) k = current s k.
Proof.
  unfold current. f_equal.
  destruct (conversationStates s !! k) as [l|] eqn:Hk.
  - by rewrite !(touch_known _ _ _ Hk).
  - apply (touch_known _ _ (length (heap s))).
    rewrite (touch_fresh _ _ Hk). simpl. by rewrite lookup_insert_eq.
Qed.

Lemma touch_touch s k : touch k (touch k s) = touch k s.
Proof.
  destruct (conversationStates s !! k) as [l|] eqn:Hk.
  - by rewrite !(touch_known _ _ _ Hk).
  - apply (touch_known _ _ (length (heap s))).
    rewrite (touch_fresh _ _ Hk). simpl. by rewrite lookup_insert_eq.
Qed.

Lemma touch_modify s k f : touch k (modify k f (touch k s)) = modify k f (touch k s).
Proof.
  destruct (getConversationState k s) as [c s1] eqn:Hget.
  assert (is_Some (conversationStates (touch k s) !! k)) as [l Hl].
  { unfold touch, getConversationState.
    destruct (conversationStates s !! k) as [l|] eqn:Hk; simpl; [by exists l|].
    rewrite lookup_insert_eq. by eexists. }
  apply (touch_known _ _ l). by rewrite modify_map.
Qed.

Lemma current_modify s k f c :
  store_wf s → current s k = Some c →
  current (modify k f (touch k s)) k = Some (f c).
Proof.
  intros Hwf Hc. unfold current. rewrite touch_modify.
  by apply entry_modify_current.
Qed.

Lemma includes_snoc xs p : includes (xs ++ [p]) p = true.
Proof. apply includes_spec, elem_of_app. right. by constructor. Qed.

(** * The claims *)

(** ** Unknown aspects *)

(** C1, as stated, fails: reading the unknown aspect [phase] of the
    never-seen identity [conv1] on the empty store throws the
    invalid-parameters error, and the store it leaves behind holds a new
    entry for [conv1], because [getConversationState] runs before the
    [switch]. *)
Lemma unknown_aspect_creates_entry :
  fst (conversationAspect "conversation://conv1/phase" (VString "conv1") "phase"
         None empty_store)
    = Throw {| code := InvalidParams;
               message := "Unknown conversation aspect requested: phase" |}
  ∧ entry empty_store (Some "conv1") = None
  ∧ entry (snd (conversationAspect "conversation://conv1/phase" (VString "conv1")
                  "phase" None empty_store)) (Some "conv1")
      = Some (initial_state (Some "conv1"))
  ∧ snd (conversationAspect "conversation://conv1/phase" (VString "conv1") "phase"
           None empty_store) ≠ empty_store.
Proof.
  split; [reflexivity|]. split; [reflexivity|]. split; [reflexivity|].
  intros H. apply (f_equal heap) in H. discriminate H.
Qed.

(** C1 (amended): for every identity and every aspect string outside
    {goal, summary, state, keyPoints}, the read throws the
    invalid-parameters error naming the aspect, and the store it leaves is
    the one after the identity-first lookup: the entry of every other
    identity is unchanged, a store that already knows the identity is left
    unchanged as a whole, and a never-seen identity gets one fresh entry in
    its initial state. *)
Theorem unknown_aspect_rejected_after_lookup h p a sid s :
  store_wf s →
  a ∉ ["goal"; "summary"; "state"; "keyPoints"] →
  let k := determinedConversationId p sid in
  conversationAspect h p a sid s
    = (Throw {| code := InvalidParams;
                message := "Unknown conversation aspect requested: " +:+ a |},
       touch k s)
  ∧ (∀ k', k' ≠ k → entry (touch k s) k' = entry s k')
  ∧ (is_Some (conversationStates s !! k) → touch k s = s)
  ∧ (conversationStates s !! k = None →
     entry (touch k s) k = Some (initial_state k)
     ∧ conversationStates (touch k s) = <[k := length (heap s)]> (conversationStates s)).
Proof.
  intros Hwf Ha k. split; [|split; [|split]].
  - destruct (conversationAspect_run h p a sid s Hwf) as (c & _ & ->).
    assert (∀ x, x ∈ ["goal"; "summary"; "state"; "keyPoints"] →
                 String.eqb a x = false) as Hne.
    { intros x Hx. apply String.eqb_neq. intros ->. done. }
    rewrite !Hne by (by repeat constructor). done.
  - intros k' Hk'. by apply entry_touch_ne.
  - intros [l Hl]. by eapply touch_known.
  - intros Hk. split; [by apply current_fresh|]. by rewrite touch_fresh.
Qed.

Lemma unknown_aspect_rejected_after_lookup_witness :
  store_wf empty_store
  ∧ conversationAspect "conversation://conv1/phase" (VString "conv1") "phase" None
      empty_store
    = (Throw {| code := InvalidParams;
                message := "Unknown conversation aspect requested: phase" |},
       touch (Some "conv1") empty_store).
Proof.
  split; [apply store_wf_empty|].
  apply (unknown_aspect_rejected_after_lookup
           "conversation://conv1/phase" (VString "conv1") "phase" None empty_store).
  - apply store_wf_empty.
  - intros H. apply list_elem_of_In in H. simpl in H.
    destruct H as [H|[H|[H|[H|[]]]]]; discriminate H.
Defined.

(** ** Identity resolution *)

(** C2, as stated, fails: an explicit identifier that is the empty string is
    taken as the identity, although a session identifier is available; the
    result is not a non-empty string, in the read callback and in the tool
    handlers alike. *)
Lemma empty_identifier_is_kept :
  ¬ nonempty_identity (determinedConversationId (VString EmptyString) (Some "session-1"))
  ∧ conversationId (Some EmptyString) (Some "session-1") = EmptyString.
Proof.
  split; [|reflexivity]. intros (x & Hx & Hne). simpl in Hx.
  injection Hx as <-. by apply Hne.
Qed.

(** C2 (amended): for an explicit identifier that is absent, a single string
    or a non-empty sequence, and any session identifier, resolution yields
    exactly one identity string, chosen in order: the explicit string; the
    first element of the sequence; the session identifier; the literal
    [default].  The chosen candidate is used as it is, so the identity is
    non-empty exactly when that candidate is. *)
Theorem identity_resolution_order :
  (∀ x sid, determinedConversationId (VString x) sid = Some x)
  ∧ (∀ x xs sid, determinedConversationId (VArray (x :: xs)) sid = Some x)
  ∧ (∀ x, determinedConversationId VUndefined (Some x) = Some x)
  ∧ determinedConversationId VUndefined None = Some "default"
  ∧ (∀ x sid, conversationId (Some x) sid = x)
  ∧ (∀ x, conversationId None (Some x) = x)
  ∧ conversationId None None = "default"
  ∧ (∀ p sid x, determinedConversationId p sid = Some x →
       (nonempty_identity (determinedConversationId p sid) ↔ x ≠ EmptyString))
  ∧ nonempty_identity (Some "default").
Proof.
  repeat split; try done.
  - intros (y & Hy & Hne). congruence.
  - intros Hne. exists x. by split.
  - by exists "default".
Qed.

(** ** Phase transitions *)

(** C3: on the state [c] of the resolved conversation, whatever its phase:
    set_conversation_goal ends in [exploring], summarize_conversation in
    [summarizing], record_key_point in the phase of [c]; suggest_next_step
    ends in [defining_goal] when no goal is set, keeps the phase when a goal
    is set and the phase is [defining_goal], [exploring] or [summarizing],
    and ends in [defining_goal] when a goal is set and the phase is [idle].
    A set goal is a non-empty string, as the schema of set_conversation_goal
    guarantees. *)
Theorem phase_transitions s cid sid c :
  store_wf s →
  current s (Some (conversationId cid sid)) = Some c →
  let k := Some (conversationId cid sid) in
  (∀ g, phase <$> entry (handle (SetConversationGoal g cid sid) s) k = Some "exploring")
  ∧ (∀ t, phase <$> entry (handle (SummarizeConversation t cid sid) s) k
          = Some "summarizing")
  ∧ (∀ p, phase <$> entry (handle (RecordKeyPoint p cid sid) s) k = Some (phase c))
  ∧ (goal c = None →
     phase <$> entry (handle (SuggestNextStep cid sid) s) k = Some "defining_goal")
  ∧ (∀ g, goal c = Some g → g ≠ EmptyString →
          phase c ∈ ["defining_goal"; "exploring"; "summarizing"] →
          phase <$> entry (handle (SuggestNextStep cid sid) s) k = Some (phase c))
  ∧ (∀ g, goal c = Some g → g ≠ EmptyString → phase c = "idle" →
          phase <$> entry (handle (SuggestNextStep cid sid) s) k = Some "defining_goal").
Proof.
  intros Hwf Hcur k. subst k. simpl.
  pose proof Hcur as Htouch. unfold current in Htouch.
  split; [|split; [|split; [|split; [|split]]]].
  - intros g. rewrite set_conversation_goal_run by done. simpl.
    by rewrite (entry_modify_current _ _ _ c).
  - intros t. rewrite summarize_conversation_run by done. simpl.
    by rewrite (entry_modify_current _ _ _ c).
  - intros p. destruct (record_key_point_run s p cid sid Hwf) as (c' & Hc' & ->).
    rewrite Hcur in Hc'. injection Hc' as <-.
    destruct (includes (keyPoints c) p); simpl.
    + by rewrite Htouch.
    + by rewrite (entry_modify_current _ _ _ c).
  - intros Hg. destruct (suggest_next_step_run s cid sid Hwf) as (c' & Hc' & ->).
    rewrite Hcur in Hc'. injection Hc' as <-.
    rewrite Hg. simpl. by rewrite (entry_modify_current _ _ _ c).
  - intros g Hg Hne Hph.
    destruct (suggest_next_step_run s cid sid Hwf) as (c' & Hc' & ->).
    rewrite Hcur in Hc'. injection Hc' as <-.
    rewrite Hg. destruct g as [|x g]; [done|]. simpl.
    apply list_elem_of_In in Hph. simpl in Hph.
    destruct Hph as [Hp|[Hp|[Hp|[]]]]; rewrite <- Hp; simpl;
      rewrite Htouch; simpl; by rewrite <- Hp.
  - intros g Hg Hne Hph.
    destruct (suggest_next_step_run s cid sid Hwf) as (c' & Hc' & ->).
    rewrite Hcur in Hc'. injection Hc' as <-.
    rewrite Hg, Hph. destruct g as [|x g]; [done|]. simpl.
    by rewrite (entry_modify_current _ _ _ c).
Qed.

Lemma phase_transitions_witness :
  store_wf reverted_store
  ∧ current reverted_store (Some (conversationId (Some "conv1") None))
    = Some {| id := Some "conv1"; goal := Some "Plan a trip"; summary := None;
              keyPoints := []; phase := "idle" |}
  ∧ phase <$> entry (handle (SuggestNextStep (Some "conv1") None) reverted_store)
                (Some "conv1")
    = Some "defining_goal".
Proof.
  assert (store_wf reverted_store) as Hwf.
  { intros k l H. unfold reverted_store in H. simpl in H.
    apply lookup_singleton_Some in H as [<- <-]. by eexists. }
  split; [exact Hwf|]. split; [reflexivity|].
  eapply (phase_transitions reverted_store (Some "conv1") None _ Hwf eq_refl).
  - reflexivity.
  - discriminate.
  - reflexivity.
Defined.

(** ** Guidance text *)

Lemma reply_text_result t : reply (text_result t) = t.
Proof. reflexivity. Qed.

Lemma contains_empty t : contains EmptyString t = true.
Proof. apply contains_spec. by exists EmptyString, t. Qed.

(** A goal that is set is quoted in the phases [defining_goal], [exploring]
    and [summarizing], on any well-formed store. *)
Lemma suggestion_quotes_goal_in_phase s cid sid c g :
  store_wf s →
  current s (Some (conversationId cid sid)) = Some c →
  goal c = Some g →
  phase c ∈ ["defining_goal"; "exploring"; "summarizing"] →
  ∃ r s', suggest_next_step cid sid s = (Normal r, s')
          ∧ contains g (reply r) = true.
Proof.
  intros Hwf Hcur Hg Hph.
  destruct (suggest_next_step_run s cid sid Hwf) as (c' & Hc' & Hrun).
  rewrite Hcur in Hc'. injection Hc' as <-. rewrite Hg in Hrun.
  destruct g as [|x g]; simpl in Hrun.
  - rewrite Hrun. do 2 eexists. split; [done|]. apply contains_empty.
  - apply list_elem_of_In in Hph. simpl in Hph.
    destruct Hph as [Hp|[Hp|[Hp|[]]]]; rewrite <- Hp in Hrun; simpl in Hrun;
      rewrite Hrun; do 2 eexists; (split; [done|]);
      rewrite reply_text_result;
      apply contains_append_r, contains_append_r, contains_prefix, prefix_append.
Qed.

(** C4: on every store the server can reach, whenever the goal of the
    resolved conversation is set (non-null), suggest_next_step returns a
    result whose text contains the stored goal verbatim, whatever the
    current phase is.  With a goal set that phase is [exploring] or
    [summarizing]; it is never [idle], because [idle] is only written at
    creation and a goal only together with [exploring]. *)
Theorem suggestion_quotes_goal s cid sid c g :
  reachable s →
  current s (Some (conversationId cid sid)) = Some c →
  goal c = Some g →
  ∃ r s', suggest_next_step cid sid s = (Normal r, s')
          ∧ contains g (reply r) = true
          ∧ phase c ∈ ["exploring"; "summarizing"]
          ∧ phase c ≠ "idle".
Proof.
  intros Hreach Hcur Hg.
  destruct (store_inv_current _ _ _ (reachable_inv _ Hreach) Hcur) as (_ & _ & Hgoal).
  destruct (Hgoal _ Hg) as [_ Hin].
  assert (phase c ∈ ["defining_goal"; "exploring"; "summarizing"]) as Hph.
  { by constructor. }
  destruct (suggestion_quotes_goal_in_phase s cid sid c g
              (reachable_wf _ Hreach) Hcur Hg Hph) as (r & s' & Hrun & Hcont).
  exists r, s'. split; [done|]. split; [done|]. split; [done|].
  apply list_elem_of_In in Hin. simpl in Hin.
  destruct Hin as [<-|[<-|[]]]; discriminate.
Qed.

Lemma suggestion_quotes_goal_witness :
  reachable (run [SetConversationGoal "Plan a trip" (Some "conv1") None] empty_store)
  ∧ ∃ r s',
      suggest_next_step (Some "conv1") None
        (run [SetConversationGoal "Plan a trip" (Some "conv1") None] empty_store)
      = (Normal r, s')
      ∧ contains "Plan a trip" (reply r) = true.
Proof.
  assert (reachable (run [SetConversationGoal "Plan a trip" (Some "conv1") None]
                       empty_store)) as Hreach.
  { apply (reachable_step empty_store
             (SetConversationGoal "Plan a trip" (Some "conv1") None)
             reachable_start).
    reflexivity. }
  split; [exact Hreach|].
  destruct (suggestion_quotes_goal _ (Some "conv1") None
              {| id := Some "conv1"; goal := Some "Plan a trip"; summary := None;
                 keyPoints := []; phase := "exploring" |} "Plan a trip"
              Hreach eq_refl eq_refl) as (r & s' & Hrun & Hcont & _).
  by exists r, s'.
Defined.

(** ** Key points *)

(** C5: in every reachable store no conversation holds the same key point
    twice.  record_key_point with a point that is already present returns
    the "already recorded" sentence, which differs from every confirmation,
    and leaves the whole store as it was; with a new point it appends the
    point (one more entry, still without duplicates, every other field
    including the phase as before) and returns a confirmation whose text
    quotes the exact point; a second call with the same point then returns a
    different text and changes nothing. *)
Theorem key_points_distinct s p cid sid :
  reachable s →
  let k := Some (conversationId cid sid) in
  (∀ k' c', entry s k' = Some c' → NoDup (keyPoints c'))
  ∧ ∃ c, current s k = Some c
    ∧ (p ∈ keyPoints c →
       ∃ r, record_key_point p cid sid s = (Normal r, s)
            ∧ Tool.content r
              = [ {| Tool.type := "text";
                     Tool.text := "That point seems to be already recorded." |} ]
            ∧ reply r = "That point seems to be already recorded."
            ∧ ∀ q, reply r ≠ "Noted. Key point recorded: " +:+ dquote +:+ q +:+ dquote)
    ∧ (p ∉ keyPoints c →
       ∃ r s' c',
         record_key_point p cid sid s = (Normal r, s')
         ∧ Tool.content r
           = [ {| Tool.type := "text";
                  Tool.text := "Noted. Key point recorded: " +:+ dquote +:+ p +:+ dquote |} ]
         ∧ reply r = "Noted. Key point recorded: " +:+ dquote +:+ p +:+ dquote
         ∧ contains p (reply r) = true
         ∧ entry s' k = Some c'
         ∧ keyPoints c' = keyPoints c ++ [p]
         ∧ length (keyPoints c') = S (length (keyPoints c))
         ∧ NoDup (keyPoints c')
         ∧ phase c' = phase c ∧ goal c' = goal c
         ∧ summary c' = summary c ∧ id c' = id c
         ∧ ∃ r2, record_key_point p cid sid s' = (Normal r2, s')
                 ∧ reply r2 = "That point seems to be already recorded."
                 ∧ reply r2 ≠ reply r).
Proof.
  intros Hreach k. pose proof (reachable_inv _ Hreach) as Hinv.
  pose proof Hinv as [Hwf _]. split.
  { intros k' c' He. by destruct (store_inv_entry _ _ _ Hinv He). }
  destruct (record_key_point_run s p cid sid Hwf) as (c & Hcur & Hrun).
  exists c. split; [done|]. split.
  - intros Hin. apply includes_spec in Hin as Hinc. rewrite Hinc in Hrun.
    exists (text_result "That point seems to be already recorded.").
    split; [|split; [reflexivity|split; [reflexivity|]]].
    + rewrite Hrun. f_equal.
      destruct (conversationStates s !! k) as [l|] eqn:Hk.
      * by eapply touch_known.
      * unfold k in Hk. rewrite (current_fresh _ _ Hk) in Hcur.
        injection Hcur as <-. simpl in Hin. by apply not_elem_of_nil in Hin.
    + intros q. rewrite reply_text_result. discriminate.
  - intros Hnin. assert (includes (keyPoints c) p = false) as Hinc.
    { apply not_true_is_false. by rewrite includes_spec. }
    rewrite Hinc in Hrun. do 3 eexists. split; [exact Hrun|].
    split; [reflexivity|]. split; [reflexivity|].
    split.
    { rewrite reply_text_result.
      apply contains_append_r, contains_append_r, contains_prefix, prefix_append. }
    split; [by apply entry_modify_current|]. simpl.
    split; [done|]. split; [rewrite length_app; simpl; lia|].
    split.
    { destruct (store_inv_current _ _ _ Hinv Hcur) as (Hnd & _ & _).
      apply NoDup_app. split; [done|]. split; [|apply NoDup_singleton].
      intros x Hx Hxp. by apply list_elem_of_singleton in Hxp as ->. }
    do 4 (split; [done|]).
    assert (store_wf (modify k (push_keyPoint p) (touch k s))) as Hwf'.
    { apply store_wf_modify; [by apply store_wf_touch|done]. }
    destruct (record_key_point_run _ p cid sid Hwf') as (c2 & Hc2 & Hrun2).
    fold k in Hc2. rewrite (current_modify _ _ _ c) in Hc2 by done.
    injection Hc2 as <-. simpl in Hrun2. rewrite includes_snoc in Hrun2.
    fold k in Hrun2. rewrite touch_modify in Hrun2.
    eexists. split; [exact Hrun2|]. split; [reflexivity|].
    rewrite !reply_text_result. discriminate.
Qed.

Lemma key_points_distinct_witness :
  reachable (run [RecordKeyPoint "Visit Paris" (Some "conv1") None] empty_store)
  ∧ ∃ r, record_key_point "Visit Paris" (Some "conv1") None
           (run [RecordKeyPoint "Visit Paris" (Some "conv1") None] empty_store)
         = (Normal r, run [RecordKeyPoint "Visit Paris" (Some "conv1") None] empty_store)
         ∧ reply r = "That point seems to be already recorded.".
Proof.
  assert (reachable (run [RecordKeyPoint "Visit Paris" (Some "conv1") None]
                       empty_store)) as Hreach.
  { apply (reachable_step empty_store
             (RecordKeyPoint "Visit Paris" (Some "conv1") None) reachable_start).
    reflexivity. }
  split; [exact Hreach|].
  destruct (key_points_distinct _ "Visit Paris" (Some "conv1") None Hreach)
    as (_ & c & Hcur & Hdup & _).
  destruct Hdup as (r & Hrun & _ & Hreply & _).
  { vm_compute in Hcur. injection Hcur as <-. simpl. by repeat constructor. }
  by exists r.
Defined.

(** ** Summaries *)

Lemma mockSummary_shape t :
  ∃ body rest,
    t = body +:+ rest
    ∧ String.length body = 150 `min` String.length t
    ∧ (String.length t ≤ 150 →
       mockSummary t = "Summary based on text provided: " +:+ body +:+ EmptyString
       ∧ body = t)
    ∧ (150 < String.length t →
       mockSummary t = "Summary based on text provided: " +:+ body +:+ "...").
Proof.
  destruct (js_substring0_prefix 150 t) as (rest & Ht & Hlen).
  exists (js_substring0 150 t), rest. split; [done|]. split; [done|].
  unfold mockSummary, summary_label. split.
  - intros Hle. rewrite (proj2 (Nat.ltb_ge _ _) Hle).
    split; [done|]. by apply js_substring0_all.
  - intros Hlt. by rewrite (proj2 (Nat.ltb_lt _ _) Hlt).
Qed.

Lemma mockSummary_length t :
  String.length (mockSummary t)
  = 32 + 150 `min` String.length t + (if 150 <? String.length t then 3 else 0).
Proof.
  destruct (js_substring0_prefix 150 t) as (rest & _ & Hlen).
  unfold mockSummary. rewrite !length_append, Hlen.
  change (String.length summary_label) with 32.
  destruct (150 <? String.length t); simpl; lia.
Qed.

(** C6: summarize_conversation overwrites [summary] with the fixed label
    followed by the first 150 characters of the source, followed by the
    marker [...] exactly when the source is longer than 150 characters (no
    marker at 150); the phase becomes [summarizing]; the result it returns
    is a fixed acknowledgment whose text does not contain the summary. *)
Theorem summarize_truncates s t cid sid :
  store_wf s →
  10 ≤ String.length t →
  let k := Some (conversationId cid sid) in
  ∃ r s' c' body rest marker,
    summarize_conversation t cid sid s = (Normal r, s')
    ∧ Tool.content r
      = [ {| Tool.type := "text";
             Tool.text := "OK, I've updated the conversation summary." |} ]
    ∧ reply r = "OK, I've updated the conversation summary."
    ∧ entry s' k = Some c'
    ∧ summary c' = Some ("Summary based on text provided: " +:+ body +:+ marker)
    ∧ t = body +:+ rest
    ∧ String.length body = 150 `min` String.length t
    ∧ (150 < String.length t → marker = "...")
    ∧ (String.length t ≤ 150 → marker = EmptyString ∧ body = t)
    ∧ phase c' = "summarizing"
    ∧ contains ("Summary based on text provided: " +:+ body +:+ marker) (reply r)
      = false.
Proof.
  intros Hwf _ k. destruct (current_is_Some s k Hwf) as [c Hcur].
  destruct (mockSummary_shape t) as (body & rest & Ht & Hlen & Hshort & Hlong).
  exists (text_result "OK, I've updated the conversation summary.").
  exists (modify k (set_phase "summarizing" ∘ set_summary (mockSummary t)) (touch k s)).
  exists ((set_phase "summarizing" ∘ set_summary (mockSummary t)) c), body, rest.
  exists (if 150 <? String.length t then "..." else EmptyString).
  split; [by apply summarize_conversation_run|].
  split; [reflexivity|]. split; [reflexivity|].
  split; [by apply entry_modify_current|].
  split.
  { simpl. f_equal. destruct (Nat.ltb_spec 150 (String.length t)) as [H|H].
    - by apply Hlong.
    - by apply Hshort. }
  split; [done|]. split; [done|].
  split. { intros H. by rewrite (proj2 (Nat.ltb_lt _ _) H). }
  split. { intros H. rewrite (proj2 (Nat.ltb_ge _ _) H). split; [done|]. by apply Hshort. }
  split; [done|].
  rewrite reply_text_result.
  apply not_true_is_false. intros H. by apply contains_label in H.
Qed.

Lemma summarize_truncates_witness :
  store_wf empty_store
  ∧ 10 ≤ String.length "We compared trains and flights."
  ∧ ∃ r s' c',
      summarize_conversation "We compared trains and flights." (Some "conv1") None
        empty_store
      = (Normal r, s')
      ∧ reply r = "OK, I've updated the conversation summary."
      ∧ entry s' (Some "conv1") = Some c'
      ∧ summary c'
        = Some "Summary based on text provided: We compared trains and flights.".
Proof.
  split; [apply store_wf_empty|]. split; [simpl; lia|].
  destruct (summarize_truncates empty_store "We compared trains and flights."
              (Some "conv1") None store_wf_empty ltac:(simpl; lia))
    as (r & s' & c' & body & rest & marker & Hrun & _ & Hreply & He & Hs
        & _ & _ & _ & Hshort & _).
  exists r, s', c'. split; [done|]. split; [done|]. split; [done|].
  destruct Hshort as [-> ->]; [simpl; lia|]. exact Hs.
Defined.

(** C10: for a source of at least 10 characters the stored summary has
    between 42 and 185 characters: the 32 of the label, at most 150 of the
    source, and the 3 of the marker only when the source is longer than
    150. *)
Theorem summary_length_bounds s t cid sid :
  store_wf s →
  10 ≤ String.length t →
  let k := Some (conversationId cid sid) in
  String.length "Summary based on text provided: " = 32
  ∧ ∃ c' sm,
      entry (handle (SummarizeConversation t cid sid) s) k = Some c'
      ∧ summary c' = Some sm
      ∧ String.length sm
        = 32 + 150 `min` String.length t + (if 150 <? String.length t then 3 else 0)
      ∧ 42 ≤ String.length sm ≤ 185.
Proof.
  intros Hwf Hlen k. split; [done|].
  destruct (current_is_Some s k Hwf) as [c Hcur].
  exists ((set_phase "summarizing" ∘ set_summary (mockSummary t)) c), (mockSummary t).
  unfold handle. rewrite summarize_conversation_run by done. cbn [snd].
  split; [by apply entry_modify_current|]. split; [done|].
  rewrite mockSummary_length. split; [done|].
  destruct (Nat.ltb_spec 150 (String.length t)); lia.
Qed.

Lemma summary_length_bounds_witness :
  store_wf empty_store
  ∧ 10 ≤ String.length "We compared trains and flights."
  ∧ ∃ c' sm,
      entry (handle (SummarizeConversation "We compared trains and flights."
                       (Some "conv1") None) empty_store) (Some "conv1") = Some c'
      ∧ summary c' = Some sm
      ∧ 42 ≤ String.length sm ≤ 185.
Proof.
  split; [apply store_wf_empty|]. split; [simpl; lia|].
  destruct (summary_length_bounds empty_store "We compared trains and flights."
              (Some "conv1") None store_wf_empty ltac:(simpl; lia))
    as (_ & c' & sm & He & Hs & _ & Hb).
  by exists c', sm.
Defined.

(** ** Lazy creation and aliasing *)

Lemma getConversationState_fresh s k :
  conversationStates s !! k = None →
  getConversationState k s = (Normal (length (heap s)), touch k s)
  ∧ conversationStates (touch k s) !! k = Some (length (heap s))
  ∧ heap (touch k s) !! length (heap s) = Some (initial_state k).
Proof.
  intros Hk. rewrite (touch_fresh _ _ Hk). simpl. split.
  - unfold getConversationState. by rewrite Hk.
  - split; [by rewrite lookup_insert_eq|by apply list_lookup_middle].
Qed.

Lemma getConversationState_lookup s k l s1 :
  getConversationState k s = (Normal l, s1) →
  conversationStates s1 !! k = Some l.
Proof.
  unfold getConversationState.
  destruct (conversationStates s !! k) as [l0|] eqn:Hk; intros [= <- <-].
  - done.
  - simpl. by rewrite lookup_insert_eq.
Qed.

Lemma getConversationState_again s k l s1 :
  getConversationState k s = (Normal l, s1) →
  getConversationState k s1 = (Normal l, s1).
Proof.
  intros H. apply getConversationState_lookup in H.
  unfold getConversationState. by rewrite H.
Qed.

(** C7: for an identity the store has never seen, each of the four reads
    returns its unset rendering and creates exactly one entry, initialised
    to goal null, summary null, no key points and phase [idle].  Resolving an
    identity again yields the same object and creates nothing, and an
    update made through the first reference is what the second lookup
    reads; a goal written by set_conversation_goal is what a read of the
    aspect [goal] of the same identity returns. *)
Theorem first_read_creates_idle_entry h p sid s :
  conversationStates s !! determinedConversationId p sid = None →
  let k := determinedConversationId p sid in
  let s1 := touch k s in
  let page t :=
    Normal {| Resource.contents :=
                [ {| Resource.uri := h; Resource.text := t;
                     Resource.mimeType := "text/plain" |} ] |} in
  conversationAspect h p "goal" sid s
    = (page "No conversation goal has been set yet.", s1)
  ∧ conversationAspect h p "summary" sid s
    = (page "No summary is currently available for this conversation.", s1)
  ∧ conversationAspect h p "state" sid s
    = (page "The conversation is currently in the 'idle' phase.", s1)
  ∧ conversationAspect h p "keyPoints" sid s
    = (page "No key points have been recorded yet.", s1)
  ∧ heap s1 = heap s ++ [initial_state k]
  ∧ conversationStates s1 = <[k := length (heap s)]> (conversationStates s)
  ∧ size (conversationStates s1) = S (size (conversationStates s))
  ∧ entry s1 k = Some {| id := k; goal := None; summary := None;
                         keyPoints := []; phase := "idle" |}
  ∧ (∀ s0 k0 l s0',
       getConversationState k0 s0 = (Normal l, s0') →
       getConversationState k0 s0' = (Normal l, s0')
       ∧ ∀ c f, heap s0' !! l = Some c →
                getConversationState k0 (snd (assign l f s0'))
                  = (Normal l, snd (assign l f s0'))
                ∧ deref l (snd (assign l f s0')) = (Normal (f c), snd (assign l f s0')))
  ∧ (∀ s0 g cid sid', store_wf s0 →
       determinedConversationId p sid = Some (conversationId cid sid') →
       fst (conversationAspect h p "goal" sid
              (handle (SetConversationGoal g cid sid') s0)) = page g).
Proof.
  intros Hk k s1 page.
  destruct (getConversationState_fresh s k Hk) as (Hget & Hl & Hc).
  assert (∀ a, conversationAspect h p a sid s
               = bind (if String.eqb a "goal" then
                         bind (deref (length (heap s)))
                           (λ st, ret (match goal st with
                                       | Some g => g
                                       | None => "No conversation goal has been set yet."
                                       end))
                       else if String.eqb a "summary" then
                         bind (deref (length (heap s)))
                           (λ st, ret (match summary st with
                                       | Some t => t
                                       | None => "No summary is currently available for this conversation."
                                       end))
                       else if String.eqb a "state" then
                         bind (deref (length (heap s)))
                           (λ st, ret ("The conversation is currently in the '"
                                       +:+ phase st +:+ "' phase."))
                       else if String.eqb a "keyPoints" then
                         bind (deref (length (heap s)))
                           (λ st, ret (if 0 <? length (keyPoints st)
                                       then join newline (map (λ p, "- " +:+ p) (keyPoints st))
                                       else "No key points have been recorded yet."))
                       else throw (unknown_aspect a))
                   (λ textContent,
                      ret {| Resource.contents :=
                               [ {| Resource.uri := h; Resource.text := textContent;
                                    Resource.mimeType := "text/plain" |} ] |}) s1)
    as Hread.
  { intros a. unfold conversationAspect. by rewrite (bind_Normal _ _ _ _ _ Hget). }
  split; [rewrite Hread; simpl; rewrite bind_bind; by run_deref|].
  split; [rewrite Hread; simpl; rewrite bind_bind; by run_deref|].
  split; [rewrite Hread; simpl; rewrite bind_bind; by run_deref|].
  split; [rewrite Hread; simpl; rewrite bind_bind; by run_deref|].
  clear Hread Hget Hl Hc. subst s1 k. rewrite (touch_fresh _ _ Hk). simpl.
  split; [done|]. split; [done|].
  split; [by apply map_size_insert_None|].
  split. { unfold entry. simpl. rewrite lookup_insert_eq. by apply list_lookup_middle. }
  split.
  - intros s0 k0 l s0' Hget0. split; [by eapply getConversationState_again|].
    intros c f Hc0. unfold assign, deref. rewrite Hc0. simpl.
    pose proof (getConversationState_lookup _ _ _ _ Hget0) as Hl0.
    split.
    + unfold getConversationState. simpl. by rewrite Hl0.
    + rewrite list_lookup_insert_eq by (by eapply lookup_lt_Some). done.
  - intros s0 g cid sid' Hwf0 Hsame. unfold handle.
    rewrite set_conversation_goal_run by done. cbn [snd].
    set (k1 := Some (conversationId cid sid')).
    set (s2 := modify k1 (set_phase "exploring" ∘ set_goal g) (touch k1 s0)).
    assert (store_wf s2) as Hwf2.
    { apply store_wf_modify; [by apply store_wf_touch|done]. }
    destruct (current_is_Some s0 k1 Hwf0) as [c0 Hc0].
    destruct (conversationAspect_run h p "goal" sid s2 Hwf2) as (c2 & Hc2 & ->).
    simpl. rewrite Hsame in Hc2. fold k1 in Hc2.
    assert (current s2 k1 = Some ((set_phase "exploring" ∘ set_goal g) c0)) as Hc2'.
    { destruct (getConversationState_run s0 k1 Hwf0) as (l1 & ? & _ & Hl1 & _).
      rewrite (current_known _ _ l1) by (unfold s2; by rewrite modify_map).
      by apply entry_modify_current. }
    rewrite Hc2' in Hc2. by injection Hc2 as <-.
Qed.

Lemma first_read_creates_idle_entry_witness :
  conversationStates empty_store !! determinedConversationId (VString "conv1") None = None
  ∧ conversationAspect "conversation://conv1/state" (VString "conv1") "state" None
      empty_store
    = (Normal {| Resource.contents :=
                   [ {| Resource.uri := "conversation://conv1/state";
                        Resource.text := "The conversation is currently in the 'idle' phase.";
                        Resource.mimeType := "text/plain" |} ] |},
       touch (Some "conv1") empty_store).
Proof.
  split; [reflexivity|].
  apply (first_read_creates_idle_entry "conversation://conv1/state" (VString "conv1")
           None empty_store).
  reflexivity.
Defined.

(** ** The phase is enumerated *)

(** C8: in every store reachable from the empty store by tool calls and
    resource reads, the phase of every stored conversation, and of every
    allocated object, is one of [idle], [defining_goal], [exploring] and
    [summarizing]; the sentence rendered by a read of the aspect [state]
    names one of these four. *)
Theorem phase_enumerated s :
  reachable s →
  (∀ k c, entry s k = Some c →
          phase c ∈ ["idle"; "defining_goal"; "exploring"; "summarizing"])
  ∧ (∀ c, c ∈ heap s →
          phase c ∈ ["idle"; "defining_goal"; "exploring"; "summarizing"])
  ∧ (∀ h p sid, ∃ ph,
       ph ∈ ["idle"; "defining_goal"; "exploring"; "summarizing"]
       ∧ conversationAspect h p "state" sid s
         = (Normal {| Resource.contents :=
                        [ {| Resource.uri := h;
                             Resource.text :=
                               "The conversation is currently in the '" +:+ ph
                               +:+ "' phase.";
                             Resource.mimeType := "text/plain" |} ] |},
            touch (determinedConversationId p sid) s)).
Proof.
  intros Hreach. pose proof (reachable_inv _ Hreach) as Hinv.
  split; [|split].
  - intros k c He. by destruct (store_inv_entry _ _ _ Hinv He) as (_ & Hph & _).
  - intros c Hc. destruct Hinv as [_ Hall]. rewrite Forall_forall in Hall.
    by destruct (Hall _ Hc) as (_ & Hph & _).
  - intros h p sid. pose proof Hinv as [Hwf _].
    destruct (conversationAspect_run h p "state" sid s Hwf) as (c & Hcur & ->).
    exists (phase c). split; [|done].
    by destruct (store_inv_current _ _ _ Hinv Hcur) as (_ & Hph & _).
Qed.

Lemma phase_enumerated_witness :
  reachable (run [SummarizeConversation "We compared trains and flights."
                    (Some "conv1") None] empty_store)
  ∧ ∀ k c,
      entry (run [SummarizeConversation "We compared trains and flights."
                    (Some "conv1") None] empty_store) k = Some c →
      phase c ∈ ["idle"; "defining_goal"; "exploring"; "summarizing"].
Proof.
  assert (reachable (run [SummarizeConversation "We compared trains and flights."
                            (Some "conv1") None] empty_store)) as Hreach.
  { apply (reachable_step empty_store
             (SummarizeConversation "We compared trains and flights." (Some "conv1") None)
             reachable_start).
    reflexivity. }
  split; [exact Hreach|]. apply (phase_enumerated _ Hreach).
Defined.

(** ** Frame *)

(** C9: relative to the state [c] that the handler works on, the resolved
    conversation afterwards differs at most in goal and phase
    (set_conversation_goal), summary and phase (summarize_conversation),
    keyPoints (record_key_point), phase (suggest_next_step); its id never
    changes; the entry of every other identity is what it was. *)
Theorem handlers_frame s cid sid c :
  store_wf s →
  current s (Some (conversationId cid sid)) = Some c →
  let k := Some (conversationId cid sid) in
  (∀ g, ∃ c', entry (handle (SetConversationGoal g cid sid) s) k = Some c'
              ∧ id c' = id c ∧ summary c' = summary c ∧ keyPoints c' = keyPoints c)
  ∧ (∀ t, ∃ c', entry (handle (SummarizeConversation t cid sid) s) k = Some c'
                ∧ id c' = id c ∧ goal c' = goal c ∧ keyPoints c' = keyPoints c)
  ∧ (∀ p, ∃ c', entry (handle (RecordKeyPoint p cid sid) s) k = Some c'
                ∧ id c' = id c ∧ goal c' = goal c ∧ summary c' = summary c
                ∧ phase c' = phase c)
  ∧ (∃ c', entry (handle (SuggestNextStep cid sid) s) k = Some c'
           ∧ id c' = id c ∧ goal c' = goal c ∧ summary c' = summary c
           ∧ keyPoints c' = keyPoints c)
  ∧ (∀ k', k' ≠ k →
       (∀ g, entry (handle (SetConversationGoal g cid sid) s) k' = entry s k')
       ∧ (∀ t, entry (handle (SummarizeConversation t cid sid) s) k' = entry s k')
       ∧ (∀ p, entry (handle (RecordKeyPoint p cid sid) s) k' = entry s k')
       ∧ entry (handle (SuggestNextStep cid sid) s) k' = entry s k').
Proof.
  intros Hwf Hcur k. subst k. unfold handle.
  pose proof Hcur as Htouch. unfold current in Htouch.
  destruct (suggest_next_step_run s cid sid Hwf) as (c1 & Hc1 & Hsug).
  rewrite Hcur in Hc1. injection Hc1 as <-.
  assert (∀ p, ∃ c1, current s (Some (conversationId cid sid)) = Some c1 ∧
            record_key_point p cid sid s =
              if includes (keyPoints c1) p
              then (Normal (text_result "That point seems to be already recorded."),
                    touch (Some (conversationId cid sid)) s)
              else (Normal (text_result ("Noted. Key point recorded: " +:+ dquote
                                         +:+ p +:+ dquote)),
                    modify (Some (conversationId cid sid)) (push_keyPoint p)
                      (touch (Some (conversationId cid sid)) s))) as Hrec.
  { intros p. by apply record_key_point_run. }
  split; [|split; [|split; [|split]]].
  - intros g. rewrite set_conversation_goal_run by done. cbn [snd].
    eexists. split; [by apply entry_modify_current|done].
  - intros t. rewrite summarize_conversation_run by done. cbn [snd].
    eexists. split; [by apply entry_modify_current|done].
  - intros p. destruct (Hrec p) as (c1 & Hc1 & ->).
    rewrite Hcur in Hc1. injection Hc1 as <-.
    destruct (includes (keyPoints c) p); cbn [snd].
    + by exists c.
    + eexists. split; [by apply entry_modify_current|done].
  - rewrite Hsug.
    destruct (not_goal (goal c)); cbn [snd];
      [eexists; split; [by apply entry_modify_current|done]|].
    destruct (String.eqb (phase c) "defining_goal"); cbn [snd]; [by exists c|].
    destruct (String.eqb (phase c) "exploring"); cbn [snd]; [by exists c|].
    destruct (String.eqb (phase c) "summarizing"); cbn [snd]; [by exists c|].
    eexists; split; [by apply entry_modify_current|done].
  - intros k' Hne. split; [|split; [|split]].
    + intros g. rewrite set_conversation_goal_run by done. cbn [snd].
      by apply entry_modify_touch_ne.
    + intros t. rewrite summarize_conversation_run by done. cbn [snd].
      by apply entry_modify_touch_ne.
    + intros p. destruct (Hrec p) as (c1 & _ & ->).
      destruct (includes (keyPoints c1) p); cbn [snd];
        [by apply entry_touch_ne|by apply entry_modify_touch_ne].
    + rewrite Hsug.
      repeat (match goal with
              | |- context [if ?b then _ else _] => destruct b
              end); cbn [snd];
        first [by apply entry_touch_ne|by apply entry_modify_touch_ne].
Qed.

Lemma handlers_frame_witness :
  store_wf reverted_store
  ∧ current reverted_store (Some (conversationId (Some "conv2") None))
    = Some (initial_state (Some "conv2"))
  ∧ ∀ g, entry (handle (SetConversationGoal g (Some "conv2") None) reverted_store)
           (Some "conv1")
         = entry reverted_store (Some "conv1").
Proof.
  assert (store_wf reverted_store) as Hwf.
  { intros k l H. unfold reverted_store in H. simpl in H.
    apply lookup_singleton_Some in H as [<- <-]. by eexists. }
  split; [exact Hwf|]. split; [reflexivity|].
  intros g.
  destruct (handlers_frame reverted_store (Some "conv2") None _ Hwf eq_refl)
    as (_ & _ & _ & _ & Hothers).
  destruct (Hothers (Some "conv1")) as [Hgoal _]; [discriminate|].
  apply Hgoal.
Defined.

(** ** The scenario of the specification, run on the model *)

Example end_to_end_scenario :
  let s1 := run [SetConversationGoal "Plan a trip" (Some "conv1") None;
                 RecordKeyPoint "Visit Paris" (Some "conv1") None;
                 RecordKeyPoint "Visit Paris" (Some "conv1") None] empty_store in
  entry s1 (Some "conv1")
    = Some {| id := Some "conv1"; goal := Some "Plan a trip"; summary := None;
              keyPoints := ["Visit Paris"]; phase := "exploring" |}
  ∧ fst (conversationAspect "conversation://conv1/state" (VString "conv1") "state"
           None s1)
    = Normal {| Resource.contents :=
                  [ {| Resource.uri := "conversation://conv1/state";
                       Resource.text := "The conversation is currently in the 'exploring' phase.";
                       Resource.mimeType := "text/plain" |} ] |}
  ∧ phase <$> entry (handle (SummarizeConversation "We compared trains and flights."
                               (Some "conv1") None) s1) (Some "conv1")
    = Some "summarizing".
Proof. repeat split; reflexivity. Qed.

(** * Further properties of the server *)

(** ** The shape of every request *)

Lemma modify_ext s k f g : (∀ c, f c = g c) → modify k f s = modify k g s.
Proof.
  intros H. unfold modify, assign.
  destruct (conversationStates s !! k) as [l|]; [|done].
  destruct (heap s !! l) as [c|]; [|done]. simpl. by rewrite H.
Qed.

Lemma modify_id s k : modify k (λ c, c) s = s.
Proof.
  unfold modify, assign.
  destruct (conversationStates s !! k) as [l|]; [|done].
  destruct (heap s !! l) as [c|] eqn:Hc; [|done]. simpl.
  rewrite list_insert_id by done. by destruct s.
Qed.

(** Every request is a lazy creation followed by an in-place update of the
    resolved object that keeps its id, only extends its key points and never
    resets a goal or a summary. *)
Lemma handle_shape r s :
  store_wf s →
  ∃ f, handle r s = modify (target r) f (touch (target r) s)
       ∧ ∀ c, id (f c) = id c
              ∧ keyPoints c `prefix_of` keyPoints (f c)
              ∧ (is_Some (goal c) → is_Some (goal (f c)))
              ∧ (is_Some (summary c) → is_Some (summary (f c))).
Proof.
  intros Hwf.
  assert (∀ c : ConversationState,
            id c = id c ∧ keyPoints c `prefix_of` keyPoints c
            ∧ (is_Some (goal c) → is_Some (goal c))
            ∧ (is_Some (summary c) → is_Some (summary c))) as Hsame.
  { intros c. by repeat split. }
  destruct r as [h p a sid|g cid sid|t cid sid|cid sid|p cid sid]; simpl.
  - exists (λ c, c). rewrite modify_id. split; [apply conversationAspect_store|done].
  - exists (set_phase "exploring" ∘ set_goal g).
    rewrite set_conversation_goal_run by done. split; [done|].
    intros c. simpl. by repeat split.
  - exists (set_phase "summarizing" ∘ set_summary (mockSummary t)).
    rewrite summarize_conversation_run by done. split; [done|].
    intros c. simpl. by repeat split.
  - destruct (suggest_next_step_run s cid sid Hwf) as (c & _ & ->).
    destruct (not_goal (goal c)); simpl;
      [exists (set_phase "defining_goal"); split; [done|]; intros c'; by repeat split|].
    destruct (String.eqb (phase c) "defining_goal"); simpl;
      [exists (λ c, c); by rewrite modify_id|].
    destruct (String.eqb (phase c) "exploring"); simpl;
      [exists (λ c, c); by rewrite modify_id|].
    destruct (String.eqb (phase c) "summarizing"); simpl;
      [exists (λ c, c); by rewrite modify_id|].
    exists (set_phase "defining_goal"). split; [done|]. intros c'. by repeat split.
  - destruct (record_key_point_run s p cid sid Hwf) as (c & _ & ->).
    destruct (includes (keyPoints c) p); simpl;
      [exists (λ c, c); by rewrite modify_id|].
    exists (push_keyPoint p). split; [done|]. intros c'. simpl.
    repeat split; try done. by exists [p].
Qed.

Lemma store_wf_handle r s : store_wf s → store_wf (handle r s).
Proof.
  intros Hwf. destruct (handle_shape r s Hwf) as (f & -> & Hf).
  apply store_wf_modify; [by apply store_wf_touch|]. intros c. by destruct (Hf c).
Qed.

(** ** Totality *)

(** On a well-formed store every tool handler returns a result, whatever its
    payload: none of them throws and none follows a missing reference. *)
Theorem tools_always_return s cid sid :
  store_wf s →
  (∀ g, ∃ r s', set_conversation_goal g cid sid s = (Normal r, s'))
  ∧ (∀ t, ∃ r s', summarize_conversation t cid sid s = (Normal r, s'))
  ∧ (∃ r s', suggest_next_step cid sid s = (Normal r, s'))
  ∧ (∀ p, ∃ r s', record_key_point p cid sid s = (Normal r, s')).
Proof.
  intros Hwf. split; [|split; [|split]].
  - intros g. rewrite set_conversation_goal_run by done. by do 2 eexists.
  - intros t. rewrite summarize_conversation_run by done. by do 2 eexists.
  - destruct (suggest_next_step_run s cid sid Hwf) as (c & _ & ->).
    repeat (match goal with
            | |- context [if ?b then _ else _] => destruct b
            end); by do 2 eexists.
  - intros p. destruct (record_key_point_run s p cid sid Hwf) as (c & _ & ->).
    destruct (includes (keyPoints c) p); by do 2 eexists.
Qed.

Lemma tools_always_return_witness :
  store_wf empty_store
  ∧ ∃ r s', suggest_next_step None None empty_store = (Normal r, s').
Proof.
  split; [apply store_wf_empty|].
  apply (tools_always_return empty_store None None store_wf_empty).
Defined.

Ltac advertised_case :=
  split; split;
  [ intros _; by repeat constructor
  | intros _; by eexists
  | intros [e He]; discriminate He
  | intros H; destruct H; by repeat constructor ].

(** A read returns contents exactly for the aspects that the template's
    completion callback advertises; for any other aspect it throws. *)
Theorem read_succeeds_iff_advertised h p a sid s :
  store_wf s →
  ((∃ r, fst (conversationAspect h p a sid s) = Normal r) ↔ a ∈ complete_aspect)
  ∧ ((∃ e, fst (conversationAspect h p a sid s) = Throw e) ↔ a ∉ complete_aspect).
Proof.
  intros Hwf.
  destruct (conversationAspect_run h p a sid s Hwf) as (c & _ & ->). simpl.
  unfold complete_aspect.
  destruct (String.eqb_spec a "goal") as [->|Hg].
  { advertised_case. }
  destruct (String.eqb_spec a "summary") as [->|Hs].
  { advertised_case. }
  destruct (String.eqb_spec a "state") as [->|Hst].
  { advertised_case. }
  destruct (String.eqb_spec a "keyPoints") as [->|Hk].
  { advertised_case. }
  assert (a ∉ ["goal"; "summary"; "state"; "keyPoints"]) as Hnot.
  { intros H. apply list_elem_of_In in H. simpl in H.
    destruct H as [?|[?|[?|[?|[]]]]]; congruence. }
  split; split.
  - intros [r Hr]. discriminate Hr.
  - done.
  - done.
  - intros _. by eexists.
Qed.

Lemma read_succeeds_iff_advertised_witness :
  store_wf empty_store
  ∧ ∃ r, fst (conversationAspect "conversation://conv1/keyPoints" (VString "conv1")
                "keyPoints" None empty_store) = Normal r.
Proof.
  split; [apply store_wf_empty|].
  apply (read_succeeds_iff_advertised "conversation://conv1/keyPoints"
           (VString "conv1") "keyPoints" None empty_store store_wf_empty).
  unfold complete_aspect. by repeat constructor.
Defined.

(** ** Growth of the store *)

(** A request never removes or replaces a conversation: a known identity
    keeps its object, whose id stays, whose key points are only extended at
    the end, and whose goal and summary, once set, stay set. *)
Theorem conversations_persist r s k l c :
  store_wf s →
  conversationStates s !! k = Some l →
  heap s !! l = Some c →
  conversationStates (handle r s) !! k = Some l
  ∧ ∃ c', heap (handle r s) !! l = Some c'
          ∧ entry (handle r s) k = Some c'
          ∧ id c' = id c
          ∧ keyPoints c `prefix_of` keyPoints c'
          ∧ (is_Some (goal c) → is_Some (goal c'))
          ∧ (is_Some (summary c) → is_Some (summary c')).
Proof.
  intros Hwf Hl Hc. destruct (handle_shape r s Hwf) as (f & -> & Hf).
  pose proof (store_wf_touch s (target r) Hwf) as Hwf1.
  assert (entry s k = Some c) as He by by apply (entry_points _ _ l).
  assert (conversationStates (touch (target r) s) !! k = Some l) as Hl1.
  { destruct (conversationStates s !! target r) as [l0|] eqn:Ht.
    - by rewrite (touch_known _ _ _ Ht).
    - rewrite (touch_fresh _ _ Ht). simpl. rewrite lookup_insert_ne; [done|].
      intros <-. congruence. }
  assert (entry (touch (target r) s) k = Some c) as He1.
  { destruct (decide (k = target r)) as [->|Hne].
    - change (current s (target r) = Some c). by rewrite (current_known _ _ l).
    - by rewrite entry_touch_ne. }
  rewrite modify_map. split; [done|].
  assert (∀ c', entry (modify (target r) f (touch (target r) s)) k = Some c' →
                heap (modify (target r) f (touch (target r) s)) !! l = Some c') as Hheap.
  { intros c'. unfold entry. by rewrite modify_map, Hl1. }
  destruct (decide (k = target r)) as [->|Hne].
  - exists (f c). destruct (Hf c) as (? & ? & ? & ?).
    assert (entry (modify (target r) f (touch (target r) s)) (target r) = Some (f c))
      as He2 by (rewrite entry_modify_eq by done; by rewrite He1).
    split; [by apply Hheap|]. by repeat split.
  - exists c.
    assert (entry (modify (target r) f (touch (target r) s)) k = Some c)
      as He2 by (rewrite entry_modify_ne by done; done).
    split; [by apply Hheap|]. by repeat split.
Qed.

Lemma conversations_persist_witness :
  store_wf reverted_store
  ∧ conversationStates
      (handle (RecordKeyPoint "Visit Paris" (Some "conv1") None) reverted_store)
      !! Some "conv1" = Some 0.
Proof.
  assert (store_wf reverted_store) as Hwf.
  { intros k l H. unfold reverted_store in H. simpl in H.
    apply lookup_singleton_Some in H as [<- <-]. by eexists. }
  split; [exact Hwf|].
  apply (conversations_persist (RecordKeyPoint "Visit Paris" (Some "conv1") None)
           reverted_store (Some "conv1") 0
           {| id := Some "conv1"; goal := Some "Plan a trip"; summary := None;
              keyPoints := []; phase := "idle" |} Hwf); reflexivity.
Defined.

(** A request adds at most one conversation: afterwards the known identities
    are those known before together with the identity the request resolves
    to. *)
Theorem request_adds_its_identity r s :
  store_wf s →
  dom (conversationStates (handle r s)) = {[ target r ]} ∪ dom (conversationStates s)
  ∧ (is_Some (conversationStates s !! target r) →
     conversationStates (handle r s) = conversationStates s
     ∧ length (heap (handle r s)) = length (heap s))
  ∧ (conversationStates s !! target r = None →
     size (conversationStates (handle r s)) = S (size (conversationStates s))
     ∧ length (heap (handle r s)) = S (length (heap s))).
Proof.
  intros Hwf. destruct (handle_shape r s Hwf) as (f & -> & _).
  rewrite modify_map.
  assert (length (heap (modify (target r) f (touch (target r) s)))
          = length (heap (touch (target r) s))) as Hlen.
  { unfold modify, assign.
    destruct (conversationStates (touch (target r) s) !! target r); [|done].
    destruct (heap (touch (target r) s) !! n); [|done]. simpl.
    by rewrite length_insert. }
  rewrite Hlen.
  destruct (conversationStates s !! target r) as [l|] eqn:Ht.
  - rewrite (touch_known _ _ _ Ht). split; [|split; [done|by intros [=]]].
    rewrite <- (insert_id _ _ _ Ht) at 1. by rewrite dom_insert_L.
  - rewrite (touch_fresh _ _ Ht). simpl. split; [by rewrite dom_insert_L|].
    split; [by intros [? [=]]|]. intros _.
    split; [by apply map_size_insert_None|]. rewrite length_app. simpl. lia.
Qed.

Lemma request_adds_its_identity_witness :
  store_wf empty_store
  ∧ dom (conversationStates (handle (SuggestNextStep None (Some "session-1")) empty_store))
    = {[ target (SuggestNextStep None (Some "session-1")) ]}
      ∪ dom (conversationStates empty_store).
Proof.
  split; [apply store_wf_empty|].
  apply (request_adds_its_identity (SuggestNextStep None (Some "session-1"))
           empty_store store_wf_empty).
Defined.

(** ** Repeating a request *)

Lemma modify_twice s k f g :
  store_wf s →
  modify k g (touch k (modify k f (touch k s))) = modify k (g ∘ f) (touch k s).
Proof.
  intros Hwf. rewrite touch_modify. apply modify_modify. by apply store_wf_touch.
Qed.

(** Setting the goal twice is the same as setting the last goal once, and
    likewise for the summary: the earlier value leaves no trace in the store
    or in the answer. *)
Theorem last_write_wins s cid sid :
  store_wf s →
  (∀ g1 g2,
     set_conversation_goal g2 cid sid (handle (SetConversationGoal g1 cid sid) s)
     = set_conversation_goal g2 cid sid s)
  ∧ (∀ t1 t2,
       summarize_conversation t2 cid sid (handle (SummarizeConversation t1 cid sid) s)
       = summarize_conversation t2 cid sid s).
Proof.
  intros Hwf. split.
  - intros g1 g2.
    rewrite (set_conversation_goal_run (handle _ s)) by by apply store_wf_handle.
    unfold handle. rewrite !set_conversation_goal_run by done. cbn [snd].
    f_equal. rewrite modify_twice by done. by apply modify_ext.
  - intros t1 t2.
    rewrite (summarize_conversation_run (handle _ s)) by by apply store_wf_handle.
    unfold handle. rewrite !summarize_conversation_run by done. cbn [snd].
    f_equal. rewrite modify_twice by done. by apply modify_ext.
Qed.

Lemma last_write_wins_witness :
  store_wf empty_store
  ∧ set_conversation_goal "Plan a trip" (Some "conv1") None
      (handle (SetConversationGoal "Plan a move" (Some "conv1") None) empty_store)
    = set_conversation_goal "Plan a trip" (Some "conv1") None empty_store.
Proof.
  split; [apply store_wf_empty|].
  apply (last_write_wins empty_store (Some "conv1") None store_wf_empty).
Defined.

(** Recording a key point a second time right away changes nothing and
    returns the "already recorded" sentence as its text, whether or not the
    point was new the first time. *)
Theorem record_twice s p cid sid :
  store_wf s →
  ∃ r, record_key_point p cid sid (handle (RecordKeyPoint p cid sid) s)
       = (Normal r, handle (RecordKeyPoint p cid sid) s)
       ∧ r = text_result "That point seems to be already recorded."
       ∧ Tool.content r
         = [ {| Tool.type := "text";
                Tool.text := "That point seems to be already recorded." |} ]
       ∧ reply r = "That point seems to be already recorded.".
Proof.
  intros Hwf. exists (text_result "That point seems to be already recorded.").
  split; [|by repeat split].
  set (k := Some (conversationId cid sid)).
  pose proof (store_wf_handle (RecordKeyPoint p cid sid) s Hwf) as Hwf'.
  destruct (record_key_point_run _ p cid sid Hwf') as (c2 & Hc2 & ->).
  fold k in Hc2. unfold handle in *.
  destruct (record_key_point_run s p cid sid Hwf) as (c & Hc & Hrun).
  fold k in Hc. rewrite Hrun in *.
  destruct (includes (keyPoints c) p) eqn:Hinc; cbn [snd] in *.
  - rewrite current_touch, Hc in Hc2. injection Hc2 as <-.
    rewrite Hinc. by rewrite touch_touch.
  - fold k in Hc2. rewrite (current_modify _ _ _ c) in Hc2 by done.
    injection Hc2 as <-. simpl. rewrite includes_snoc.
    fold k. by rewrite touch_modify.
Qed.

Lemma record_twice_witness :
  store_wf empty_store
  ∧ ∃ r, record_key_point "Visit Paris" None None
           (handle (RecordKeyPoint "Visit Paris" None None) empty_store)
         = (Normal r, handle (RecordKeyPoint "Visit Paris" None None) empty_store)
         ∧ reply r = "That point seems to be already recorded.".
Proof.
  split; [apply store_wf_empty|].
  destruct (record_twice empty_store "Visit Paris" None None store_wf_empty)
    as (r & Hrun & _ & _ & Hreply).
  by exists r.
Defined.

(** Asking for the next step twice in a row leaves the store as after the
    first call: the phase settles after one suggestion. *)
Theorem suggest_twice s cid sid :
  store_wf s →
  handle (SuggestNextStep cid sid) (handle (SuggestNextStep cid sid) s)
  = handle (SuggestNextStep cid sid) s.
Proof.
  intros Hwf. set (k := Some (conversationId cid sid)).
  pose proof (store_wf_handle (SuggestNextStep cid sid) s Hwf) as Hwf'.
  unfold handle in *.
  destruct (suggest_next_step_run _ cid sid Hwf') as (c2 & Hc2 & ->).
  destruct (suggest_next_step_run s cid sid Hwf) as (c & Hc & Hrun).
  fold k in Hc, Hc2. rewrite Hrun in *. clear Hrun. fold k.
  assert (modify k (set_phase "defining_goal")
            (touch k (modify k (set_phase "defining_goal") (touch k s)))
          = modify k (set_phase "defining_goal") (touch k s)) as Hdg.
  { rewrite modify_twice by done. by apply modify_ext. }
  destruct (not_goal (goal c)) eqn:Hng; cbn [snd] in *.
  { rewrite (current_modify _ _ _ c) in Hc2 by done. injection Hc2 as <-.
    simpl. rewrite Hng. cbn [snd]. apply Hdg. }
  destruct (String.eqb (phase c) "defining_goal") eqn:H1; cbn [snd] in *.
  { rewrite current_touch, Hc in Hc2. injection Hc2 as <-.
    rewrite Hng, H1. cbn [snd]. apply touch_touch. }
  destruct (String.eqb (phase c) "exploring") eqn:H2; cbn [snd] in *.
  { rewrite current_touch, Hc in Hc2. injection Hc2 as <-.
    rewrite Hng, H1, H2. cbn [snd]. apply touch_touch. }
  destruct (String.eqb (phase c) "summarizing") eqn:H3; cbn [snd] in *.
  { rewrite current_touch, Hc in Hc2. injection Hc2 as <-.
    rewrite Hng, H1, H2, H3. cbn [snd]. apply touch_touch. }
  rewrite (current_modify _ _ _ c) in Hc2 by done. injection Hc2 as <-.
  simpl. rewrite Hng. simpl. apply touch_modify.
Qed.

Lemma suggest_twice_witness :
  store_wf empty_store
  ∧ handle (SuggestNextStep None None) (handle (SuggestNextStep None None) empty_store)
    = handle (SuggestNextStep None None) empty_store.
Proof.
  split; [apply store_wf_empty|].
  apply (suggest_twice empty_store None None store_wf_empty).
Defined.

(** ** Reads *)

(** A resource read is repeatable and read-only: reading again returns the
    same outcome and the same store, and no conversation that existed before
    the read is changed by it. *)
Theorem reads_are_repeatable h p a sid s :
  store_wf s →
  conversationAspect h p a sid (snd (conversationAspect h p a sid s))
  = conversationAspect h p a sid s
  ∧ ∀ k c, entry s k = Some c →
           entry (snd (conversationAspect h p a sid s)) k = Some c.
Proof.
  intros Hwf. set (k := determinedConversationId p sid).
  rewrite conversationAspect_store. fold k.
  pose proof (store_wf_touch s k Hwf) as Hwf1. split.
  - destruct (conversationAspect_run h p a sid _ Hwf1) as (c1 & Hc1 & ->).
    destruct (conversationAspect_run h p a sid s Hwf) as (c & Hc & ->).
    fold k in Hc, Hc1. fold k. rewrite current_touch, Hc in Hc1.
    injection Hc1 as <-. by rewrite touch_touch.
  - intros k' c He. destruct (decide (k' = k)) as [->|Hne].
    + unfold entry in He.
      destruct (conversationStates s !! k) as [l|] eqn:Hk; [|done].
      rewrite (touch_known _ _ _ Hk). by apply (entry_points _ _ l).
    + by rewrite entry_touch_ne.
Qed.

Lemma reads_are_repeatable_witness :
  store_wf empty_store
  ∧ conversationAspect "conversation://conv1/goal" (VString "conv1") "goal" None
      (snd (conversationAspect "conversation://conv1/goal" (VString "conv1") "goal"
              None empty_store))
    = conversationAspect "conversation://conv1/goal" (VString "conv1") "goal" None
        empty_store.
Proof.
  split; [apply store_wf_empty|].
  apply (reads_are_repeatable "conversation://conv1/goal" (VString "conv1") "goal"
           None empty_store store_wf_empty).
Defined.

(** ** Reading back what a tool wrote *)

Lemma resolvers_agree o sid :
  determinedConversationId (explicit_variable o) sid = Some (conversationId o sid).
Proof. by destruct o, sid. Qed.

Lemma append_empty_r (s : string) : s +:+ EmptyString = s.
Proof. induction s as [|x s IH]; [done|]. by rewrite append_cons, IH. Qed.

Lemma contains_refl (s : string) : contains s s = true.
Proof. apply contains_spec. exists EmptyString, EmptyString. by rewrite append_empty_r. Qed.

Lemma join_cons sep x y ys :
  join sep (x :: y :: ys) = x +:+ sep +:+ join sep (y :: ys).
Proof. reflexivity. Qed.

(** Every recorded point shows up as a bullet of the rendered list. *)
Lemma bullets_contain xs p :
  p ∈ xs → contains ("- " +:+ p) (join newline (map (λ p, "- " +:+ p) xs)) = true.
Proof.
  induction xs as [|x xs IH]; intros Hin; [by apply not_elem_of_nil in Hin|].
  apply elem_of_cons in Hin as [->|Hin].
  - destruct xs as [|y ys]; [apply contains_refl|].
    simpl map. rewrite join_cons. apply contains_prefix, prefix_append.
  - destruct xs as [|y ys]; [by apply not_elem_of_nil in Hin|].
    simpl map in *. rewrite join_cons.
    by apply contains_append_r, contains_append_r, IH.
Qed.

(** A read that addresses a conversation the way the tool call did (same
    explicit identifier or none, same session) returns what the tool wrote:
    the goal and the phase [exploring] after set_conversation_goal, the
    summary and the phase [summarizing] after summarize_conversation, and a
    bullet list containing the point after record_key_point. *)
Theorem reads_reflect_writes h o sid s :
  store_wf s →
  let p := explicit_variable o in
  let page t :=
    Normal {| Resource.contents :=
                [ {| Resource.uri := h; Resource.text := t;
                     Resource.mimeType := "text/plain" |} ] |} in
  (∀ g, fst (conversationAspect h p "goal" sid (handle (SetConversationGoal g o sid) s))
          = page g
        ∧ fst (conversationAspect h p "state" sid (handle (SetConversationGoal g o sid) s))
          = page "The conversation is currently in the 'exploring' phase.")
  ∧ (∀ t, fst (conversationAspect h p "summary" sid
                 (handle (SummarizeConversation t o sid) s))
          = page ("Summary based on text provided: " +:+ js_substring0 150 t
                  +:+ (if 150 <? String.length t then "..." else EmptyString))
          ∧ fst (conversationAspect h p "state" sid
                   (handle (SummarizeConversation t o sid) s))
            = page "The conversation is currently in the 'summarizing' phase.")
  ∧ (∀ kp, ∃ t, fst (conversationAspect h p "keyPoints" sid
                       (handle (RecordKeyPoint kp o sid) s)) = page t
                ∧ contains ("- " +:+ kp) t = true).
Proof.
  intros Hwf p page. subst p.
  set (k := Some (conversationId o sid)).
  destruct (current_is_Some s k Hwf) as [c Hc].
  assert (∀ r a c',
            store_wf (handle r s) → current (handle r s) k = Some c' →
            ∃ c2, c2 = c' ∧
              conversationAspect h (explicit_variable o) a sid (handle r s)
              = (match
                   (if String.eqb a "goal" then
                      Some (match goal c2 with
                            | Some g => g
                            | None => "No conversation goal has been set yet."
                            end)
                    else if String.eqb a "summary" then
                      Some (match summary c2 with
                            | Some t => t
                            | None => "No summary is currently available for this conversation."
                            end)
                    else if String.eqb a "state" then
                      Some ("The conversation is currently in the '" +:+ phase c2
                            +:+ "' phase.")
                    else if String.eqb a "keyPoints" then
                      Some (if 0 <? length (keyPoints c2)
                            then join newline (map (λ p, "- " +:+ p) (keyPoints c2))
                            else "No key points have been recorded yet.")
                    else None)
                 with
                 | Some t =>
                     Normal {| Resource.contents :=
                                 [ {| Resource.uri := h; Resource.text := t;
                                      Resource.mimeType := "text/plain" |} ] |}
                 | None => Throw (unknown_aspect a)
                 end, touch (determinedConversationId (explicit_variable o) sid)
                        (handle r s))) as Hread.
  { intros r a c' Hwf' Hc'.
    destruct (conversationAspect_run h (explicit_variable o) a sid _ Hwf')
      as (c2 & Hc2 & ->).
    rewrite resolvers_agree in Hc2. fold k in Hc2. rewrite Hc' in Hc2.
    injection Hc2 as <-. by exists c'. }
  split; [|split].
  - intros g.
    assert (current (handle (SetConversationGoal g o sid) s) k
            = Some ((set_phase "exploring" ∘ set_goal g) c)) as Hcur.
    { unfold handle. rewrite set_conversation_goal_run by done. cbn [snd].
      by apply current_modify. }
    split.
    + destruct (Hread _ "goal" _ (store_wf_handle _ _ Hwf) Hcur) as (? & -> & ->). done.
    + destruct (Hread _ "state" _ (store_wf_handle _ _ Hwf) Hcur) as (? & -> & ->). done.
  - intros t.
    assert (current (handle (SummarizeConversation t o sid) s) k
            = Some ((set_phase "summarizing" ∘ set_summary (mockSummary t)) c)) as Hcur.
    { unfold handle. rewrite summarize_conversation_run by done. cbn [snd].
      by apply current_modify. }
    split.
    + destruct (Hread _ "summary" _ (store_wf_handle _ _ Hwf) Hcur) as (? & -> & ->). done.
    + destruct (Hread _ "state" _ (store_wf_handle _ _ Hwf) Hcur) as (? & -> & ->). done.
  - intros kp.
    assert (∃ c', current (handle (RecordKeyPoint kp o sid) s) k = Some c'
                  ∧ kp ∈ keyPoints c') as (c' & Hcur & Hin).
    { unfold handle. destruct (record_key_point_run s kp o sid Hwf) as (c1 & Hc1 & ->).
      fold k in Hc1. rewrite Hc in Hc1. injection Hc1 as <-.
      destruct (includes (keyPoints c) kp) eqn:Hinc; cbn [snd].
      - exists c. rewrite current_touch. split; [done|]. by apply includes_spec.
      - exists (push_keyPoint kp c). split; [by apply current_modify|].
        simpl. apply elem_of_app. right. by constructor. }
    destruct (Hread _ "keyPoints" _ (store_wf_handle _ _ Hwf) Hcur) as (? & -> & ->).
    simpl. eexists. split; [done|].
    destruct (keyPoints c') as [|x xs] eqn:Hkp; [by apply not_elem_of_nil in Hin|].
    change (0 <? length (x :: xs)) with true. cbv iota. by apply bullets_contain.
Qed.

Lemma reads_reflect_writes_witness :
  store_wf empty_store
  ∧ fst (conversationAspect "conversation://conv1/goal" (explicit_variable (Some "conv1"))
           "goal" None (handle (SetConversationGoal "Plan a trip" (Some "conv1") None)
                          empty_store))
    = Normal {| Resource.contents :=
                  [ {| Resource.uri := "conversation://conv1/goal";
                       Resource.text := "Plan a trip";
                       Resource.mimeType := "text/plain" |} ] |}.
Proof.
  split; [apply store_wf_empty|].
  apply (reads_reflect_writes "conversation://conv1/goal" (Some "conv1") None
           empty_store store_wf_empty).
Defined.

(** ** Invariants of the store as a whole *)

Lemma heap_Forall_touch (P : ConversationState → Prop) s k :
  Forall P (heap s) → P (initial_state k) → Forall P (heap (touch k s)).
Proof.
  intros Hall Hinit. destruct (conversationStates s !! k) as [l|] eqn:Hk.
  - by rewrite (touch_known _ _ _ Hk).
  - rewrite (touch_fresh _ _ Hk). simpl. apply Forall_app. split; [done|].
    by apply Forall_singleton.
Qed.

Lemma heap_Forall_modify (P : ConversationState → Prop) s k f :
  Forall P (heap s) →
  (∀ c, entry s k = Some c → P c → P (f c)) →
  Forall P (heap (modify k f s)).
Proof.
  intros Hall Hf. unfold modify, assign.
  destruct (conversationStates s !! k) as [l|] eqn:Hk; [|done].
  destruct (heap s !! l) as [c|] eqn:Hc; [|done]. simpl.
  apply Forall_insert; [done|]. apply Hf; [by apply (entry_points _ _ l)|].
  rewrite Forall_forall in Hall. by eapply Hall, list_elem_of_lookup_2.
Qed.

Lemma state_data_inv_initial k : state_data_inv (initial_state k).
Proof. by repeat split. Qed.

Lemma mockSummary_valid t :
  10 ≤ String.length t →
  String.prefix summary_label (mockSummary t) = true
  ∧ 42 ≤ String.length (mockSummary t) ≤ 185.
Proof.
  intros Hlen. split; [apply prefix_append|].
  rewrite mockSummary_length. destruct (Nat.ltb_spec 150 (String.length t)); lia.
Qed.

Lemma handle_data_inv r s :
  store_inv s → Forall state_data_inv (heap s) → schema_ok r = true →
  Forall state_data_inv (heap (handle r s)).
Proof.
  intros Hinv Hall Hok. pose proof Hinv as [Hwf _].
  assert (∀ k, Forall state_data_inv (heap (touch k s))) as Htouch.
  { intros k. apply heap_Forall_touch; [done|apply state_data_inv_initial]. }
  destruct r as [h p a sid|g cid sid|t cid sid|cid sid|p cid sid]; simpl.
  - by rewrite conversationAspect_store.
  - rewrite set_conversation_goal_run by done. simpl.
    apply heap_Forall_modify; [done|].
    intros c _ (Hg & Hs & Hk & _ & _ & _). split; [|split; [|split; [|split; [|split]]]].
    + intros g' [= <-]. by apply z_string_min_le.
    + done.
    + done.
    + by eexists.
    + done.
    + done.
  - rewrite summarize_conversation_run by done. simpl.
    apply heap_Forall_modify; [done|].
    intros c _ (Hg & Hs & Hk & _ & _ & _). split; [|split; [|split; [|split; [|split]]]].
    + done.
    + intros t' [= <-]. by apply mockSummary_valid, z_string_min_le.
    + done.
    + done.
    + done.
    + done.
  - destruct (suggest_next_step_run s cid sid Hwf) as (c & Hcur & ->).
    pose proof (store_inv_current _ _ _ Hinv Hcur) as (_ & _ & Hgoal).
    assert (Forall state_data_inv
              (heap (modify (Some (conversationId cid sid)) (set_phase "defining_goal")
                       (touch (Some (conversationId cid sid)) s)))
            ∨ ¬ (goal c = None)) as Hreset.
    { destruct (goal c) as [g|] eqn:Hg; [by right|left].
      apply heap_Forall_modify; [done|].
      intros c' Hc' (Hg' & Hs & Hk & _ & _ & _).
      unfold current in Hcur. rewrite Hcur in Hc'. injection Hc' as <-.
      split; [|split; [|split; [|split; [|split]]]]; try done. }
    destruct (not_goal (goal c)) eqn:Hng; simpl.
    + destruct Hreset as [?|Hne]; [done|].
      destruct (goal c) as [g|] eqn:Hg; [|done].
      destruct (Hgoal _ eq_refl) as [Hlen _]. destruct g; simpl in *; [lia|done].
    + destruct (String.eqb (phase c) "defining_goal"); simpl; [done|].
      destruct (String.eqb (phase c) "exploring") eqn:He; simpl; [done|].
      destruct (String.eqb (phase c) "summarizing") eqn:Hs; simpl; [done|].
      apply not_goal_false in Hng as (g' & Hg' & _).
      destruct (Hgoal _ Hg') as [_ Hin].
      apply String.eqb_neq in He, Hs.
      apply list_elem_of_In in Hin. simpl in Hin.
      destruct Hin as [?|[?|[]]]; congruence.
  - destruct (record_key_point_run s p cid sid Hwf) as (c & Hcur & ->).
    destruct (includes (keyPoints c) p); simpl; [done|].
    apply heap_Forall_modify; [done|].
    intros c' _ (Hg & Hs & Hk & He & Hd & Hi).
    split; [|split; [|split; [|split; [|split]]]]; try done.
    simpl. apply Forall_app. split; [done|].
    apply Forall_singleton. by apply z_string_min_le.
Qed.

Lemma reachable_data_inv s : reachable s → Forall state_data_inv (heap s).
Proof.
  induction 1 as [|s r Hreach IH Hok]; [by apply Forall_nil|].
  apply handle_data_inv; [by apply reachable_inv|done|done].
Qed.

(** In every reachable store the data of each conversation carries what the
    schemas and handlers put there: a stored goal has at least 5 characters,
    a stored summary starts with the label and has between 42 and 185
    characters, every key point has at least 5 characters; the phase
    [exploring] implies a goal, the phase [defining_goal] implies none, and
    the phase [idle] implies neither goal nor summary. *)
Theorem stored_data_is_valid s k c :
  reachable s →
  entry s k = Some c →
  (∀ g, goal c = Some g → 5 ≤ String.length g)
  ∧ (∀ t, summary c = Some t →
          String.prefix "Summary based on text provided: " t = true
          ∧ 42 ≤ String.length t ≤ 185)
  ∧ (∀ p, p ∈ keyPoints c → 5 ≤ String.length p)
  ∧ (phase c = "exploring" → is_Some (goal c))
  ∧ (phase c = "defining_goal" → goal c = None)
  ∧ (phase c = "idle" → goal c = None ∧ summary c = None).
Proof.
  intros Hreach He. pose proof (reachable_data_inv s Hreach) as Hall.
  rewrite Forall_forall in Hall.
  destruct (Hall c (entry_heap _ _ _ He)) as (Hg & Hs & Hk & H1 & H2 & H3).
  split; [done|]. split; [done|]. split; [|done].
  intros p Hp. rewrite Forall_forall in Hk. by apply Hk.
Qed.

Lemma stored_data_is_valid_witness :
  reachable (run [SetConversationGoal "Plan a trip" (Some "conv1") None] empty_store)
  ∧ ∀ g, Some "Plan a trip" = Some g → 5 ≤ String.length g.
Proof.
  assert (reachable (run [SetConversationGoal "Plan a trip" (Some "conv1") None]
                       empty_store)) as Hreach.
  { apply (reachable_step empty_store
             (SetConversationGoal "Plan a trip" (Some "conv1") None) reachable_start).
    reflexivity. }
  split; [exact Hreach|].
  apply (stored_data_is_valid _ (Some "conv1")
           {| id := Some "conv1"; goal := Some "Plan a trip"; summary := None;
              keyPoints := []; phase := "exploring" |} Hreach).
  reflexivity.
Defined.

Lemma heap_registered_touch s k :
  heap_registered s → heap_registered (touch k s).
Proof.
  intros Hreg. destruct (conversationStates s !! k) as [l0|] eqn:Hk.
  - by rewrite (touch_known _ _ _ Hk).
  - rewrite (touch_fresh _ _ Hk). intros l c. simpl.
    rewrite lookup_app_Some. intros [Hc|[Hle Hc]].
    + rewrite lookup_insert_ne; [by apply Hreg|].
      intros Heq. apply Hreg in Hc. congruence.
    + apply list_lookup_singleton_Some in Hc as [Hl <-]. simpl.
      rewrite lookup_insert_eq. f_equal. lia.
Qed.

Lemma heap_registered_modify s k f :
  store_wf s → heap_registered s → (∀ c, id (f c) = id c) →
  heap_registered (modify k f s).
Proof.
  intros Hwf Hreg Hid l c. rewrite modify_map. unfold modify, assign.
  destruct (conversationStates s !! k) as [l0|] eqn:Hk; [|by apply Hreg].
  destruct (heap s !! l0) as [c0|] eqn:Hc0; [|by apply Hreg]. simpl.
  rewrite list_lookup_insert_Some. intros [(<- & <- & _)|[_ Hc]].
  - rewrite Hid. by apply Hreg.
  - by apply Hreg.
Qed.

(** In every reachable store identities and objects correspond one to one:
    each known identity refers to an allocated object whose [id] is that
    identity, each allocated object is the one registered under its [id],
    and no object is shared by two identities. *)
Theorem conversations_one_to_one s :
  reachable s →
  (∀ k l, conversationStates s !! k = Some l →
          ∃ c, heap s !! l = Some c ∧ id c = k)
  ∧ (∀ l c, heap s !! l = Some c → conversationStates s !! id c = Some l)
  ∧ (∀ k1 k2 l, conversationStates s !! k1 = Some l →
                conversationStates s !! k2 = Some l → k1 = k2)
  ∧ (∀ k c, entry s k = Some c → id c = k).
Proof.
  intros Hreach. pose proof (reachable_wf s Hreach) as Hwf.
  assert (heap_registered s) as Hreg.
  { clear Hwf. induction Hreach as [|s r Hreach IH Hok].
    - intros l c H. simpl in H. by rewrite lookup_nil in H.
    - pose proof (reachable_wf s Hreach) as Hwf.
      destruct (handle_shape r s Hwf) as (f & -> & Hf).
      apply heap_registered_modify;
        [by apply store_wf_touch|by apply heap_registered_touch|].
      intros c. by destruct (Hf c). }
  split; [done|]. split; [done|]. split.
  - intros k1 k2 l H1 H2. destruct (Hwf _ _ H1) as (c1 & Hc1 & <-).
    destruct (Hwf _ _ H2) as (c2 & Hc2 & <-). congruence.
  - intros k c He. unfold entry in He.
    destruct (conversationStates s !! k) as [l|] eqn:Hk; [|done].
    destruct (Hwf _ _ Hk) as (c' & Hc' & <-). congruence.
Qed.

Lemma conversations_one_to_one_witness :
  reachable (run [RecordKeyPoint "Visit Paris" (Some "conv1") None] empty_store)
  ∧ ∀ k c, entry (run [RecordKeyPoint "Visit Paris" (Some "conv1") None] empty_store) k
           = Some c → id c = k.
Proof.
  assert (reachable (run [RecordKeyPoint "Visit Paris" (Some "conv1") None]
                       empty_store)) as Hreach.
  { apply (reachable_step empty_store
             (RecordKeyPoint "Visit Paris" (Some "conv1") None) reachable_start).
    reflexivity. }
  split; [exact Hreach|]. apply (conversations_one_to_one _ Hreach).
Defined.

(** ** Guidance after a tool call *)

(** The guidance follows the last tool call: right after a (non-empty) goal
    was set, suggest_next_step returns the "Continuing towards the goal"
    sentence quoting it; after a summary on top of that goal, the "just
    updated the summary" sentence quoting it; in both cases it leaves the
    store untouched.  On a conversation it has never seen it asks for a
    goal. *)
Theorem guidance_follows_tools s cid sid :
  store_wf s →
  (∀ g, g ≠ EmptyString →
        ∃ r, suggest_next_step cid sid (handle (SetConversationGoal g cid sid) s)
             = (Normal r, handle (SetConversationGoal g cid sid) s)
             ∧ r = text_result
                     ("Continuing towards the goal " +:+ dquote +:+ g +:+ dquote
                      +:+ ", what specific aspect should we focus on next? Or perhaps we should record some key points?")
             ∧ reply r
               = "Continuing towards the goal " +:+ dquote +:+ g +:+ dquote
                 +:+ ", what specific aspect should we focus on next? Or perhaps we should record some key points?"
             ∧ contains g (reply r) = true)
  ∧ (∀ g t, g ≠ EmptyString →
        ∃ r, suggest_next_step cid sid
               (handle (SummarizeConversation t cid sid)
                  (handle (SetConversationGoal g cid sid) s))
             = (Normal r,
                handle (SummarizeConversation t cid sid)
                  (handle (SetConversationGoal g cid sid) s))
             ∧ r = text_result
                     ("I've just updated the summary. Based on that and our goal "
                      +:+ dquote +:+ g +:+ dquote +:+ ", what's the next priority?")
             ∧ reply r
               = "I've just updated the summary. Based on that and our goal "
                 +:+ dquote +:+ g +:+ dquote +:+ ", what's the next priority?"
             ∧ contains g (reply r) = true)
  ∧ (conversationStates s !! Some (conversationId cid sid) = None →
     ∃ r, fst (suggest_next_step cid sid s) = Normal r
          ∧ r = text_result "We haven't set a goal yet. Let's define the main objective using the 'set_conversation_goal' tool."
          ∧ reply r
            = "We haven't set a goal yet. Let's define the main objective using the 'set_conversation_goal' tool.").
Proof.
  intros Hwf. set (k := Some (conversationId cid sid)).
  destruct (current_is_Some s k Hwf) as [c Hc].
  assert (∀ g, current (handle (SetConversationGoal g cid sid) s) k
               = Some ((set_phase "exploring" ∘ set_goal g) c)) as Hset.
  { intros g. unfold handle. rewrite set_conversation_goal_run by done. cbn [snd].
    by apply current_modify. }
  assert (∀ a g b, contains g (reply (text_result (a +:+ dquote +:+ g +:+ b))) = true)
    as Hquote.
  { intros a g b. rewrite reply_text_result.
    apply contains_append_r, contains_append_r, contains_prefix, prefix_append. }
  split; [|split].
  - intros g Hg. eexists. split; [|split; [reflexivity|split; [reflexivity|apply Hquote]]].
    pose proof (store_wf_handle (SetConversationGoal g cid sid) s Hwf) as Hwf1.
    destruct (suggest_next_step_run _ cid sid Hwf1) as (c1 & Hc1 & ->).
    fold k in Hc1. rewrite Hset in Hc1. injection Hc1 as <-. simpl.
    destruct g as [|x g]; [done|]. simpl. f_equal. fold k.
    unfold handle. rewrite set_conversation_goal_run by done. cbn [snd].
    apply touch_modify.
  - intros g t Hg. eexists. split; [|split; [reflexivity|split; [reflexivity|apply Hquote]]].
    pose proof (store_wf_handle (SetConversationGoal g cid sid) s Hwf) as Hwf1.
    pose proof (store_wf_handle (SummarizeConversation t cid sid) _ Hwf1) as Hwf2.
    destruct (suggest_next_step_run _ cid sid Hwf2) as (c2 & Hc2 & ->).
    fold k in Hc2.
    assert (handle (SummarizeConversation t cid sid)
              (handle (SetConversationGoal g cid sid) s)
            = modify k (set_phase "summarizing" ∘ set_summary (mockSummary t))
                (touch k (handle (SetConversationGoal g cid sid) s))) as Hsum.
    { unfold handle at 1. by rewrite summarize_conversation_run by done. }
    rewrite Hsum in *.
    rewrite (current_modify _ _ _ _ Hwf1 (Hset g)) in Hc2.
    injection Hc2 as <-. simpl.
    destruct g as [|x g]; [done|]. simpl. f_equal. fold k. apply touch_modify.
  - intros Hk. eexists. split; [|split; reflexivity].
    destruct (suggest_next_step_run s cid sid Hwf) as (c1 & Hc1 & ->).
    fold k in Hc1. rewrite (current_fresh _ _ Hk) in Hc1. by injection Hc1 as <-.
Qed.

Lemma guidance_follows_tools_witness :
  store_wf empty_store
  ∧ ∃ r, fst (suggest_next_step (Some "conv1") None
                (handle (SetConversationGoal "Plan a trip" (Some "conv1") None)
                   empty_store)) = Normal r
         ∧ contains "Plan a trip" (reply r) = true.
Proof.
  split; [apply store_wf_empty|].
  destruct (guidance_follows_tools empty_store (Some "conv1") None store_wf_empty)
    as (Hgoal & _ & _).
  destruct (Hgoal "Plan a trip") as (r & Hrun & _ & _ & Hcont); [discriminate|].
  exists r. split; [by rewrite Hrun|done].
Defined.
